(** * NrFileCompressor: a shallow embedding of src/NrFileCompressor.cpp

    The development follows the layout of the C++ file: the file-name and
    path helpers, the ZIP part, the gzip part.  Qt strings ([QString]) are
    modelled as [string], file contents as [list byte], C integers as [Z]
    with their wrap-around written out.  The collaborators that live
    outside the repository's sources (the miniz block compressor and
    archive library, the file system) are parameters of the model. *)

From Stdlib Require Import ZArith List Bool Ascii String Lia.
From Stdlib Require Import Strings.Byte.
Import ListNotations.

Local Open Scope Z_scope.

(** ** Build platform

    The source is compiled differently per platform: [WIN32] selects the OS
    byte of the gzip header and the behaviour of
    [QDir::fromNativeSeparators]; [LONG_MAX] comes from <climits> and is
    [2^31-1] or [2^63-1] depending on the data model. *)

Record platform : Type := mkPlatform {
  WIN32 : bool;
  LONG_MAX : Z
}.

Definition unix_lp64 : platform := mkPlatform false (2 ^ 63 - 1).
Definition windows_llp64 : platform := mkPlatform true (2 ^ 31 - 1).
Definition unix_ilp32 : platform := mkPlatform false (2 ^ 31 - 1).

(** The data models a C++ compiler offers for [long]. *)
Definition known_data_model (p : platform) : Prop :=
  LONG_MAX p = 2 ^ 31 - 1 \/ LONG_MAX p = 2 ^ 63 - 1.

(** ** The public enumerations (NrFileCompressor.h) *)

Inductive compressedFileFormatEnum : Type :=
| NO_COMPRESSION
| GZIP_ARCHIVE
| ZIP_ARCHIVE.

Definition E_FILE_NOT_OPEN : Z := -1.
Definition E_FILE_NOT_WRITEABLE : Z := -2.
Definition E_MINIZ_ERROR : Z := -3.

(** [EXIT_FAILURE] is the macro of <cstdlib>; it expands to 1 in every C
    library Qt is built against (glibc, the MSVC runtime, Darwin's libc). *)
Definition EXIT_FAILURE : Z := 1.

Definition GZIP_EXT : string := ".gz".
Definition ZIP_EXT : string := ".zip".

(** ** QString helpers used by the source *)

Module QString.

Local Open Scope string_scope.

(** [QString::replace(before, after)] for a one-character [before] and a
    one-character [after], the only form the source uses: every
    occurrence is replaced. *)
Fixpoint replace (before after : ascii) (s : string) : string :=
  match s with
  | EmptyString => EmptyString
  | String c rest =>
      String (if Ascii.eqb c before then after else c)
             (replace before after rest)
  end.

(** [QString::endsWith(t)]: [t] is [s] itself or ends the tail of [s]. *)
Fixpoint endsWith (s t : string) : bool :=
  if String.eqb s t then true
  else match s with
       | EmptyString => false
       | String _ rest => endsWith rest t
       end.

Definition isEmpty (s : string) : bool :=
  match s with EmptyString => true | _ => false end.

End QString.

Definition backslash : ascii := Ascii.ascii_of_nat 92.
Definition slash : ascii := Ascii.ascii_of_nat 47.
Definition colon : ascii := Ascii.ascii_of_nat 58.
Definition underscore : ascii := Ascii.ascii_of_nat 95.

(** ** File-name and path helpers *)

Definition calculateNameCompliantWithZipAlgoMiniZ (filename : string) : string :=
  let s := filename in
  let s := QString.replace backslash underscore s in
  let s := QString.replace slash underscore s in
  let s := QString.replace colon underscore s in
  s.

(** [QDir::fromNativeSeparators]: on Windows every backslash becomes a
    forward slash, elsewhere the path is returned as it is. *)
Definition fromNativeSeparators (p : platform) (pathName : string) : string :=
  if WIN32 p then QString.replace backslash slash pathName else pathName.

Definition calculateFilenameWithPath (p : platform) (i_dstPath filename : string)
  : string :=
  let destfileWithpath := fromNativeSeparators p i_dstPath in
  let destfileWithpath :=
    if negb (QString.endsWith destfileWithpath "/")
    then (destfileWithpath ++ "/")%string
    else destfileWithpath in
  (destfileWithpath ++ filename)%string.

Definition getCompressedFilename (i_fileName : string)
           (i_algo : compressedFileFormatEnum) : string :=
  match i_algo with
  | GZIP_ARCHIVE => (i_fileName ++ GZIP_EXT)%string
  | ZIP_ARCHIVE => (calculateNameCompliantWithZipAlgoMiniZ i_fileName ++ ZIP_EXT)%string
  | _ => i_fileName
  end.

(** *** The wording of the specification, for comparison

    "replaces every occurrence of the path separators [\], [/] and [:] in
    name with [_]": one simultaneous pass over the characters. *)

Definition is_path_separator (c : ascii) : bool :=
  Ascii.eqb c backslash || Ascii.eqb c slash || Ascii.eqb c colon.

Fixpoint sanitize_spec (s : string) : string :=
  match s with
  | EmptyString => EmptyString
  | String c rest =>
      String (if is_path_separator c then underscore else c) (sanitize_spec rest)
  end.

(** "exactly one trailing separator": the directory part ends with a
    slash and not with two of them. *)
Definition exactly_one_trailing_separator (d : string) : Prop :=
  QString.endsWith d "/" = true /\ QString.endsWith d "//" = false.

(** ** Bytes and 32-bit fields *)

Definition Z_of_byte (b : byte) : Z := Z.of_N (Byte.to_N b).

(** Storing an integer into a [char] or [quint8] keeps its low 8 bits. *)
Definition byte_of_Z (z : Z) : byte :=
  match Byte.of_N (Z.to_N (z mod 256)) with
  | Some b => b
  | None => x00
  end.

(** [static_cast<quint32>]. *)
Definition to_quint32 (z : Z) : Z := z mod 2 ^ 32.

(** Reading four bytes back as a little-endian number (what a decoder of
    the frame does). *)
Definition le32_decode (bs : list byte) : Z :=
  match bs with
  | [b0; b1; b2; b3] =>
      Z_of_byte b0 + 2 ^ 8 * Z_of_byte b1 + 2 ^ 16 * Z_of_byte b2
      + 2 ^ 24 * Z_of_byte b3
  | _ => -1
  end.

(** Prefixes and suffixes of a buffer with a C integer count. *)
Fixpoint takeZ (n : Z) (l : list byte) : list byte :=
  match l with
  | [] => []
  | x :: rest => if 0 <? n then x :: takeZ (n - 1) rest else []
  end.

Fixpoint dropZ (n : Z) (l : list byte) : list byte :=
  match l with
  | [] => []
  | x :: rest => if 0 <? n then dropZ (n - 1) rest else l
  end.

Definition lengthZ (l : list byte) : Z := Z.of_nat (List.length l).

(** ** The gzip frame *)

(** [bytenum] is a [quint8]: whatever integer a caller passes arrives
    reduced modulo 256.  Of [var], a [quint32], only bits below 32 are
    read (the shift is at most 24 and the mask keeps 8 bits). *)
Definition getByte (var : Z) (bytenum : Z) : Z :=
  let bytenum := bytenum mod 256 in
  let shift :=
    if bytenum =? 1 then 8
    else if bytenum =? 2 then 16
    else if bytenum =? 3 then 24
    else 0 in
  Z.land (Z.shiftr var shift) 255.

(** An open [QFile] in write mode is the list of bytes written so far;
    [QFile::write] appends. *)
Definition QFile_write (pFile : list byte) (data : list byte) : list byte :=
  pFile ++ data.

Definition os_byte (p : platform) : Z := if WIN32 p then 0 else 3.

Definition writeGzipHeader (p : platform) (pFile : list byte) (i_mtime : Z)
  : Z * list byte :=
  let id1 := byte_of_Z 31 in
  let id2 := byte_of_Z 139 in
  let cm := byte_of_Z 8 in
  let flg := byte_of_Z 0 in
  let xflg := byte_of_Z 0 in
  let os := byte_of_Z (os_byte p) in
  let mtime := [byte_of_Z (getByte i_mtime 0); byte_of_Z (getByte i_mtime 1);
                byte_of_Z (getByte i_mtime 2); byte_of_Z (getByte i_mtime 3)] in
  let pFile := QFile_write pFile [id1] in
  let pFile := QFile_write pFile [id2] in
  let pFile := QFile_write pFile [cm] in
  let pFile := QFile_write pFile [flg] in
  let pFile := QFile_write pFile mtime in
  let pFile := QFile_write pFile [xflg] in
  let pFile := QFile_write pFile [os] in
  (0, pFile).

Definition writeGzipFooter (pFile : list byte) (i_crc32 i_size : Z)
  : Z * list byte :=
  let size := [byte_of_Z (getByte i_size 0); byte_of_Z (getByte i_size 1);
               byte_of_Z (getByte i_size 2); byte_of_Z (getByte i_size 3)] in
  let crc32 := [byte_of_Z (getByte i_crc32 0); byte_of_Z (getByte i_crc32 1);
                byte_of_Z (getByte i_crc32 2); byte_of_Z (getByte i_crc32 3)] in
  let pFile := QFile_write pFile crc32 in
  let pFile := QFile_write pFile size in
  (0, pFile).

(** The four bytes of a 32-bit field as both frame writers lay them out. *)
Definition le32 (v : Z) : list byte :=
  [byte_of_Z (getByte v 0); byte_of_Z (getByte v 1);
   byte_of_Z (getByte v 2); byte_of_Z (getByte v 3)].

(** The ten header bytes as RFC 1952 lists them. *)
Definition gzip_header (p : platform) (mtime : Z) : list byte :=
  [x1f; x8b; x08; x00] ++ le32 mtime ++ [x00; if WIN32 p then x00 else x03].

(** ** CRC-32 *)

Definition MZ_CRC32_INIT : Z := 0.

Definition crc32_poly : Z := 0xEDB88320.

Definition crc32_shift (c : Z) : Z :=
  if Z.testbit c 0 then Z.lxor (Z.shiftr c 1) crc32_poly else Z.shiftr c 1.

Definition crc32_byte (c : Z) (b : byte) : Z :=
  let c := Z.lxor c (Z_of_byte b) in
  crc32_shift (crc32_shift (crc32_shift (crc32_shift
    (crc32_shift (crc32_shift (crc32_shift (crc32_shift c))))))).

(** Modelled from the spec: [mz_crc32] is declared in miniz.h, which is
    not among the sources.  The specification calls it the CRC-32 of
    RFC 1952 ("32-bit cyclic redundancy check over uncompressed bytes"),
    continued from a running value; this is that checksum, bit by bit,
    with the register inverted on entry and on exit.  The buffer pointer
    is [None] for [nullptr], for which the call returns the initial value.
    The byte count of the C call is the length of the list. *)
Definition mz_crc32 (crc : Z) (ptr : option (list byte)) : Z :=
  match ptr with
  | None => MZ_CRC32_INIT
  | Some buf =>
      Z.lxor (fold_left crc32_byte buf (Z.lxor (to_quint32 crc) 0xFFFFFFFF))
             0xFFFFFFFF
  end.

(** The checksum of a whole buffer in one call. *)
Definition crc32_of (data : list byte) : Z := mz_crc32 MZ_CRC32_INIT (Some data).

(** ** The block compressor (miniz's zlib-style interface)

    The constants are those of zlib, which miniz.h repeats. *)

Definition Z_OK : Z := 0.
Definition Z_STREAM_END : Z := 1.
Definition Z_NO_FLUSH : Z := 0.
Definition Z_FINISH : Z := 4.
Definition MZ_DEFLATED : Z := 8.
Definition MZ_DEFAULT_WINDOW_BITS : Z := 15.
Definition MZ_DEFAULT_STRATEGY : Z := 0.

(** What one call of [deflate] does to the stream: its status, how many
    bytes of the available input it consumed, the bytes it stored at
    [next_out], and the compressor's new internal state. *)
Record deflate_out (codec : Type) : Type := mkDeflateOut {
  d_status : Z;
  d_consumed : Z;
  d_produced : list byte;
  d_codec : codec
}.
Arguments mkDeflateOut {codec} _ _ _ _.
Arguments d_status {codec} _.
Arguments d_consumed {codec} _.
Arguments d_produced {codec} _.
Arguments d_codec {codec} _.

(** The compressor is an external collaborator: the model is parametric
    in it.  [deflate c input avail_out flush] sees the bytes between
    [next_in] and [next_in + avail_in] and the room left at [next_out]. *)
Record zlib_api : Type := mkZlib {
  codec : Type;
  deflateInit2 : Z -> Z -> Z -> Z -> Z -> Z * codec;
  deflate : codec -> list byte -> Z -> Z -> deflate_out codec;
  deflateEnd : codec -> Z
}.

(** zlib's contract for [deflate]: [Z_STREAM_END] is returned only for a
    call made with [Z_FINISH]. *)
Definition stream_end_only_on_finish (api : zlib_api) : Prop :=
  forall c input avail_out flush,
    d_status (deflate api c input avail_out flush) = Z_STREAM_END ->
    flush = Z_FINISH.

(** ** Files and the environment of a call *)

Record file : Type := mkFile {
  f_bytes : list byte;
  f_lastModified : Z  (* QDateTime::toMSecsSinceEpoch, a qint64 *)
}.

Definition filesystem : Type := string -> option file.

Definition fs_put (fs : filesystem) (path : string) (f : file) : filesystem :=
  fun q => if String.eqb q path then Some f else fs q.

(** One entry of an archive as the reader of the archive library shows it. *)
Record zip_entry : Type := mkEntry {
  file_stat_ok : bool;
  m_filename : string;
  is_directory : bool;
  extract_ok : bool
}.

(** Everything a call depends on and does not control: which opens,
    reads and writes succeed, the clock and working directory, and the
    answers of the archive library. *)
Record env : Type := mkEnv {
  open_read_ok : string -> bool;
  open_write_ok : string -> bool;
  read_ok : nat -> bool;    (* the k-th [fin.read] transfers the count asked for *)
  write_ok : nat -> bool;   (* the k-th [fout.write] of the loop does *)
  now_ms : Z;
  currentPath : string;
  writer_init_file_ok : string -> bool;
  writer_add_file_ok : string -> string -> bool;
  writer_finalize_archive_ok : bool;
  writer_end_ok : bool;
  reader_init_file_ok : string -> bool;
  reader_entries : string -> list zip_entry
}.

(** Calls into the archive library, in the order they are made. *)
Inductive zip_call : Type :=
| mz_zip_writer_init_file (path : string) (res : bool)
| mz_zip_writer_add_file (archive_name src_name comment : string) (level : Z)
                         (res : bool)
| mz_zip_writer_finalize_archive (res : bool)
| mz_zip_writer_end (res : bool)
| mz_zip_reader_init_file (path : string) (res : bool)
| mz_zip_reader_get_num_files (count : nat)
| mz_zip_reader_file_stat (i : nat) (res : bool)
| mz_zip_reader_is_file_a_directory (i : nat) (res : bool)
| mz_zip_reader_extract_to_file (i : nat) (dst : string) (res : bool)
| mz_zip_reader_end.

(** The observable state: the files, and the log of archive-library calls
    (whose own effect on the files is the library's business). *)
Record world : Type := mkWorld {
  fs : filesystem;
  zip_log : list zip_call
}.

Definition log (w : world) (c : zip_call) : world :=
  mkWorld (fs w) (zip_log w ++ [c]).

Definition write_file (e : env) (w : world) (path : string) (data : list byte)
  : world :=
  mkWorld (fs_put (fs w) path (mkFile data (now_ms e))) (zip_log w).

(** ** ZIP part *)

Definition s_pComment : string :=
  "Zipped with NrFileCompressor! Invalid chars replaced with _".

Definition QFile_exists (w : world) (path : string) : bool :=
  match fs w path with Some _ => true | None => false end.

Section Zip.

Variable p : platform.
Variable e : env.

Definition compressZipFile (w : world)
           (i_filename i_srcpath i_dstpath : string) (level : Z) : Z * world :=
  let compressedfilename := getCompressedFilename i_filename ZIP_ARCHIVE in
  let destfilename := calculateFilenameWithPath p i_dstpath compressedfilename in
  let srcfilename := calculateFilenameWithPath p i_srcpath i_filename in
  if negb (QFile_exists w srcfilename) then (E_FILE_NOT_OPEN, w)
  else
    (* init for writing *)
    let res := writer_init_file_ok e destfilename in
    let w := log w (mz_zip_writer_init_file destfilename res) in
    if negb res then (EXIT_FAILURE, w)
    else
      let res := writer_add_file_ok e compressedfilename srcfilename in
      let w := log w (mz_zip_writer_add_file compressedfilename srcfilename
                                             s_pComment level res) in
      if negb res then (EXIT_FAILURE, w)
      else
        let res := writer_finalize_archive_ok e in
        let w := log w (mz_zip_writer_finalize_archive res) in
        if negb res then (EXIT_FAILURE, w)
        else
          let res := writer_end_ok e in
          let w := log w (mz_zip_writer_end res) in
          if negb res then (EXIT_FAILURE, w)
          else (0, w).

(** [QFileInfo(name).fileName()]: what follows the last slash. *)
Fixpoint fileName_from (acc : string) (s : string) : string :=
  match s with
  | EmptyString => acc
  | String c rest =>
      if Ascii.eqb c slash then fileName_from rest rest
      else fileName_from acc rest
  end.

Definition QFileInfo_fileName (name : string) : string :=
  let n := fromNativeSeparators p name in
  fileName_from n n.

(** The body of [for (uint i = 0; i < count; ++i)], over the entries
    from index [i] on.  [None] is the loop running to its end. *)
Fixpoint extract_entries (destDir : string) (i : nat) (entries : list zip_entry)
         (w : world) : option Z * world :=
  match entries with
  | [] => (None, w)
  | en :: rest =>
      let w := log w (mz_zip_reader_file_stat i (file_stat_ok en)) in
      if negb (file_stat_ok en) then extract_entries destDir (S i) rest w
      else
        let w := log w (mz_zip_reader_is_file_a_directory i (is_directory en)) in
        if is_directory en then extract_entries destDir (S i) rest w
        else
          let destfn := QFileInfo_fileName (m_filename en) in
          let destfilename :=
            ((if negb (QString.isEmpty destDir) then destDir else ".")
               ++ "/" ++ destfn)%string in
          let res := extract_ok en in
          let w := log w (mz_zip_reader_extract_to_file i destfilename res) in
          if negb res then (Some EXIT_FAILURE, w)
          else extract_entries destDir (S i) rest w
  end.

Definition uncompressZipFile (w : world) (filename destDir : string)
  : Z * world :=
  (* init for read *)
  let res := reader_init_file_ok e filename in
  let w := log w (mz_zip_reader_init_file filename res) in
  if negb res then (EXIT_FAILURE, w)
  else
    let entries := reader_entries e filename in
    let count := List.length entries in
    let w := log w (mz_zip_reader_get_num_files count) in
    if Nat.eqb count 0 then (0, log w mz_zip_reader_end)
    else
      match extract_entries destDir 0 entries w with
      | (Some code, w) => (code, w)
      | (None, w) => (0, log w mz_zip_reader_end)
      end.

End Zip.

(** How often a call sequence opened an archive successfully, and how
    often it closed one. *)
Definition is_open_call (c : zip_call) : bool :=
  match c with
  | mz_zip_writer_init_file _ true => true
  | mz_zip_reader_init_file _ true => true
  | _ => false
  end.

Definition is_end_call (c : zip_call) : bool :=
  match c with
  | mz_zip_writer_end _ => true
  | mz_zip_reader_end => true
  | _ => false
  end.

Definition opened (l : list zip_call) : nat := List.length (filter is_open_call l).
Definition closed (l : list zip_call) : nat := List.length (filter is_end_call l).

(** ** gZIP part *)

Definition BUF_SIZE : Z := 1024 * 1024.

Section Gzip.

Variable p : platform.
Variable api : zlib_api.
Variable e : env.

(** The variables of the reading loop. *)
Record loop_state : Type := mkLoop {
  ls_codec : codec api;      (* the compressor behind [stream] *)
  ls_in : list byte;         (* [next_in .. next_in + avail_in) *)
  ls_out : list byte;        (* [s_outbuf .. next_out); avail_out is the room left *)
  ls_fin : list byte;        (* what [fin] has not delivered yet *)
  ls_fout : list byte;       (* what [fout] has received *)
  infile_remaining : Z;
  ls_crc : Z;
  ls_reads : nat;
  ls_writes : nat
}.

Definition avail_out (s : loop_state) : Z := BUF_SIZE - lengthZ (ls_out s).

(** [if (!stream.avail_in) { ... }]; [None] is the failed read. *)
Definition refill (s : loop_state) : option loop_state :=
  match ls_in s with
  | _ :: _ => Some s
  | [] =>
      let n := Z.min BUF_SIZE (infile_remaining s) in
      if negb (read_ok e (ls_reads s)) then None
      else
        let s_inbuf := takeZ n (ls_fin s) in
        let crc := mz_crc32 (ls_crc s) (Some s_inbuf) in
        Some (mkLoop (ls_codec s) s_inbuf (ls_out s) (dropZ n (ls_fin s))
                     (ls_fout s) (infile_remaining s - n) crc
                     (S (ls_reads s)) (ls_writes s))
  end.

(** [status = deflate(&stream, infile_remaining ? Z_NO_FLUSH : Z_FINISH)].
    The call advances [next_in] over what it consumed and [next_out]
    over what it produced, never past the room it was given. *)
Definition compress_step (s : loop_state) : Z * loop_state :=
  let flush := if infile_remaining s =? 0 then Z_FINISH else Z_NO_FLUSH in
  let r := deflate api (ls_codec s) (ls_in s) (avail_out s) flush in
  (d_status r,
   mkLoop (d_codec r) (dropZ (d_consumed r) (ls_in s))
          (ls_out s ++ takeZ (avail_out s) (d_produced r))
          (ls_fin s) (ls_fout s) (infile_remaining s) (ls_crc s)
          (ls_reads s) (ls_writes s)).

(** [if ((status == Z_STREAM_END) || (!stream.avail_out)) { ... }];
    [None] is the short write. *)
Definition drain (status : Z) (s : loop_state) : option loop_state :=
  if (status =? Z_STREAM_END) || (avail_out s =? 0) then
    if negb (write_ok e (ls_writes s)) then None
    else Some (mkLoop (ls_codec s) (ls_in s) [] (ls_fin s)
                      (QFile_write (ls_fout s) (ls_out s))
                      (infile_remaining s) (ls_crc s)
                      (ls_reads s) (S (ls_writes s)))
  else Some s.

Inductive loop_exit : Type :=
| LoopBreak (s : loop_state)    (* left by [break] *)
| LoopError (s : loop_state).   (* left by [return E_MINIZ_ERROR] *)

(** [for ( ; ; ) { ... }], at most [fuel] times round; [None] is the
    loop still running when the fuel is spent. *)
Fixpoint reading_loop (fuel : nat) (s : loop_state) : option loop_exit :=
  match fuel with
  | O => None
  | S fuel' =>
      match refill s with
      | None => Some (LoopError s)
      | Some s1 =>
          let '(status, s2) := compress_step s1 in
          match drain status s2 with
          | None => Some (LoopError s2)
          | Some s3 =>
              if status =? Z_STREAM_END then Some (LoopBreak s3)
              else if negb (status =? Z_OK) then Some (LoopError s3)
              else reading_loop fuel' s3
          end
      end
  end.

Definition exit_state (x : loop_exit) : loop_state :=
  match x with LoopBreak s => s | LoopError s => s end.

(** What the loop maintains about the checksum, for a source whose
    bytes are [F]: the counter is the length of what is still unread,
    and continuing the running value over the unread rest gives the
    checksum of [F]. *)
Definition crc_inv (F : list byte) (s : loop_state) : Prop :=
  infile_remaining s = lengthZ (ls_fin s)
  /\ 0 <= ls_crc s < 2 ^ 32
  /\ mz_crc32 (ls_crc s) (Some (ls_fin s)) = crc32_of F.

Definition compressGzipFile (fuel : nat) (w : world)
           (i_filename i_srcpath i_dstpath : string) (level : Z)
  : option (Z * world) :=
  let compressedfilename := getCompressedFilename i_filename GZIP_ARCHIVE in
  let destfilename := calculateFilenameWithPath p i_dstpath compressedfilename in
  let srcfilename := calculateFilenameWithPath p i_srcpath i_filename in
  match fs w srcfilename with
  | None => Some (E_FILE_NOT_OPEN, w)
  | Some src =>
      let b := true in
      let b := b && open_read_ok e srcfilename in
      let fout_opened := open_write_ok e destfilename in
      let b := b && fout_opened in
      (* opening [fout] for writing creates or empties the destination *)
      let w := if fout_opened then write_file e w destfilename [] else w in
      if negb b then Some (E_FILE_NOT_OPEN, w)
      else
        let fout :=
          snd (writeGzipHeader p []
                 (to_quint32 (Z.quot (f_lastModified src) 1000))) in
        let finSize := lengthZ (f_bytes src) in
        let '(init, c) :=
          deflateInit2 api level MZ_DEFLATED (- MZ_DEFAULT_WINDOW_BITS) 9
                       MZ_DEFAULT_STRATEGY in
        if negb (init =? Z_OK)
        then Some (E_MINIZ_ERROR, write_file e w destfilename fout)
        else
          let crc := mz_crc32 0 None in
          match reading_loop fuel
                  (mkLoop c [] [] (f_bytes src) fout finSize crc 0 0) with
          | None => None
          | Some (LoopError s) =>
              Some (E_MINIZ_ERROR, write_file e w destfilename (ls_fout s))
          | Some (LoopBreak s) =>
              if negb (deflateEnd api (ls_codec s) =? Z_OK)
              then Some (E_MINIZ_ERROR, write_file e w destfilename (ls_fout s))
              else
                let modsize := to_quint32 (Z.land finSize (LONG_MAX p - 1)) in
                let fout :=
                  snd (writeGzipFooter (ls_fout s) (to_quint32 (ls_crc s))
                                       modsize) in
                Some (Z_OK, write_file e w destfilename fout)
          end
  end.

(** ** The entry points *)

Definition fileCompress (fuel : nat) (w : world)
           (i_fileName i_srcpath i_dstpath : string)
           (i_algo : compressedFileFormatEnum) (i_lev : Z)
  : option (Z * world) :=
  match i_algo with
  | GZIP_ARCHIVE => compressGzipFile fuel w i_fileName i_srcpath i_dstpath i_lev
  | _ => Some (compressZipFile p e w i_fileName i_srcpath i_dstpath i_lev)
  end.

(** The overload without a destination writes into the working directory. *)
Definition fileCompress_cwd (fuel : nat) (w : world)
           (i_fileName i_srcpath : string)
           (i_algo : compressedFileFormatEnum) (i_lev : Z)
  : option (Z * world) :=
  fileCompress fuel w i_fileName i_srcpath (currentPath e) i_algo i_lev.

End Gzip.

Arguments mkLoop {api} _ _ _ _ _ _ _ _ _.
Arguments ls_codec {api} _.
Arguments ls_in {api} _.
Arguments ls_out {api} _.
Arguments ls_fin {api} _.
Arguments ls_fout {api} _.
Arguments infile_remaining {api} _.
Arguments ls_crc {api} _.
Arguments ls_reads {api} _.
Arguments ls_writes {api} _.
Arguments LoopBreak {api} _.
Arguments LoopError {api} _.
Arguments exit_state {api} _.
Arguments avail_out {api} _.
Arguments crc_inv {api} _ _.

(** ** A reference compressor and a reference decoder

    Modelled from the spec: the block compressor of miniz.h is not among
    the sources; the specification treats it as a library whose "finish"
    of an empty input "still emits a minimal stream".  [RefCodec] is a
    small instance of the interface that emits valid RFC 1951 streams:
    stored blocks for the data, closed by the empty final block (the two
    bytes [03 00] of an empty fixed-Huffman block, or the five bytes of an
    empty stored block at level 0).  It serves as a concrete compressor
    where a statement needs one. *)

Module RefCodec.

Record state : Type := mkState {
  level : Z;
  pending : list byte;   (* produced, not yet handed out *)
  finished : bool        (* the final block has been produced *)
}.

Definition stored_block (final : bool) (data : list byte) : list byte :=
  let len := lengthZ data in
  [if final then x01 else x00;
   byte_of_Z len; byte_of_Z (Z.shiftr len 8);
   byte_of_Z (65535 - len); byte_of_Z (Z.shiftr (65535 - len) 8)] ++ data.

Fixpoint stored_blocks (fuel : nat) (data : list byte) : list byte :=
  match fuel, data with
  | S fuel', _ :: _ =>
      stored_block false (takeZ 65535 data)
        ++ stored_blocks fuel' (dropZ 65535 data)
  | _, _ => []
  end.

Definition final_block (lvl : Z) : list byte :=
  if lvl =? 0 then stored_block true [] else [x03; x00].

Definition init (lvl method window_bits mem_level strategy : Z) : Z * state :=
  (Z_OK, mkState lvl [] false).

Definition step (c : state) (input : list byte) (room : Z) (flush : Z)
  : deflate_out state :=
  let closing := (flush =? Z_FINISH) && negb (finished c) in
  let all := pending c ++ stored_blocks (List.length input) input
               ++ (if closing then final_block (level c) else []) in
  let rest := dropZ room all in
  mkDeflateOut
    (if (flush =? Z_FINISH) && (lengthZ rest =? 0) then Z_STREAM_END else Z_OK)
    (lengthZ input)
    (takeZ room all)
    (mkState (level c) rest (finished c || closing)).

Definition finish (c : state) : Z := Z_OK.

Definition api : zlib_api := mkZlib state init step finish.

End RefCodec.

(** Modelled from the spec: the "standard-conformant decoder" of the
    round-trip property, as RFC 1952 describes a member without optional
    fields: the ten header bytes, the deflate stream, then CRC32 and ISIZE,
    both of which the decoder compares with what it decompressed.  The
    inflater is a parameter. *)
Definition gunzip (inflate : list byte -> option (list byte)) (gz : list byte)
  : option (list byte) :=
  let n := lengthZ gz in
  if n <? 18 then None
  else
    match takeZ 4 gz with
    | [id1; id2; cm; flg] =>
        if (Z_of_byte id1 =? 31) && (Z_of_byte id2 =? 139)
           && (Z_of_byte cm =? 8) && (Z_of_byte flg =? 0)
        then
          match inflate (takeZ (n - 18) (dropZ 10 gz)) with
          | None => None
          | Some data =>
              let trailer := dropZ (n - 8) gz in
              if (le32_decode (takeZ 4 trailer) =? crc32_of data)
                 && (le32_decode (dropZ 4 trailer) =? lengthZ data mod 2 ^ 32)
              then Some data
              else None
          end
        else None
    | _ => None
    end.

(** ** Sample environments *)

Definition quiet_env : env :=
  mkEnv (fun _ => true) (fun _ => true) (fun _ => true) (fun _ => true)
        0 "." (fun _ => true) (fun _ _ => true) true true
        (fun _ => true) (fun _ => []).

Definition one_file (path : string) (data : list byte) (mtime_ms : Z) : world :=
  mkWorld (fun q => if String.eqb q path then Some (mkFile data mtime_ms) else None)
          [].

(** The destination of a gzip run, when it exists. *)
Definition dest_bytes (p : platform) (w : world) (i_filename i_dstpath : string)
  : option (list byte) :=
  option_map f_bytes
    (fs w (calculateFilenameWithPath p i_dstpath
             (getCompressedFilename i_filename GZIP_ARCHIVE))).

(** An environment in which the archive library answers as told. *)
Definition zip_env (init_ok add_ok finalize_ok end_ok reader_ok : bool)
           (entries : list zip_entry) : env :=
  mkEnv (fun _ => true) (fun _ => true) (fun _ => true) (fun _ => true)
        0 "." (fun _ => init_ok) (fun _ _ => add_ok) finalize_ok end_ok
        (fun _ => reader_ok) (fun _ => entries).

(** An extraction that the library reports as failed: the entry could be
    examined, is a file, and [mz_zip_reader_extract_to_file] returned false. *)
Definition extraction_fails (en : zip_entry) : bool :=
  file_stat_ok en && negb (is_directory en) && negb (extract_ok en).

(** The calls [compressZipFile] makes once the source exists, and the
    code it returns, read off the answers of the library (for comparison
    with the function itself). *)
Definition writer_calls (p : platform) (e : env) (f sdir ddir : string) (lvl : Z)
  : list zip_call :=
  let name := getCompressedFilename f ZIP_ARCHIVE in
  let dest := calculateFilenameWithPath p ddir name in
  let src := calculateFilenameWithPath p sdir f in
  let i := writer_init_file_ok e dest in
  let a := writer_add_file_ok e name src in
  let z := writer_finalize_archive_ok e in
  mz_zip_writer_init_file dest i
  :: (if i then
        mz_zip_writer_add_file name src s_pComment lvl a
        :: (if a then
              mz_zip_writer_finalize_archive z
              :: (if z then [mz_zip_writer_end (writer_end_ok e)] else [])
            else [])
      else []).

Definition writer_code (p : platform) (e : env) (f sdir ddir : string) : Z :=
  let name := getCompressedFilename f ZIP_ARCHIVE in
  let dest := calculateFilenameWithPath p ddir name in
  let src := calculateFilenameWithPath p sdir f in
  if writer_init_file_ok e dest && writer_add_file_ok e name src
     && writer_finalize_archive_ok e && writer_end_ok e
  then 0 else EXIT_FAILURE.

(** A loop state at the top of an iteration with the reference
    compressor: the input buffer is used up, the output buffer has room. *)
Definition loop_ready (s : loop_state RefCodec.api) : Prop :=
  ls_in s = []
  /\ lengthZ (ls_out s) < BUF_SIZE
  /\ infile_remaining s = lengthZ (ls_fin s).

(** What the reference compressor still has to hand out. *)
Definition pending_weight (c : RefCodec.state) : nat :=
  (List.length (RefCodec.pending c) + (if RefCodec.finished c then 0 else 6))%nat.

(** The world a call leaves behind (the empty world when the fuel ran out). *)
Definition world_after (r : option (Z * world)) : world :=
  match r with
  | Some (_, w) => w
  | None => mkWorld (fun _ => None) []
  end.

(** A source directory "d" holding one file "f", compressed into "o". *)
Definition gzip_sample (p : platform) (data : list byte) (mtime_ms : Z) (lvl : Z)
  : option (Z * world) :=
  compressGzipFile p RefCodec.api quiet_env 5 (one_file "d/f" data mtime_ms)
                   "f" "d" "o" lvl.

(** The bytes of the destination of such a run. *)
Definition gzip_sample_bytes (p : platform) (data : list byte) (mtime_ms : Z)
           (lvl : Z) : list byte :=
  match dest_bytes p (world_after (gzip_sample p data mtime_ms lvl)) "f" "o" with
  | Some out => out
  | None => []
  end.

(** ** Vocabulary for further properties *)

(** Whether a character occurs in a string. *)
Fixpoint contains (c : ascii) (s : string) : bool :=
  match s with
  | EmptyString => false
  | String a rest => Ascii.eqb a c || contains c rest
  end.

(** The directory an extraction goes to: [destDir], or "." when it is empty. *)
Definition extraction_dir (destDir : string) : string :=
  if negb (QString.isEmpty destDir) then destDir else ".".

(** The archive entry a reader call is about. *)
Definition call_index (c : zip_call) : option nat :=
  match c with
  | mz_zip_reader_file_stat i _ => Some i
  | mz_zip_reader_is_file_a_directory i _ => Some i
  | mz_zip_reader_extract_to_file i _ _ => Some i
  | _ => None
  end.

(** The bytes [deflate] stored in the output buffer over the rounds of
    the reading loop, in order: what each call added at [next_out], round
    after round, for as long as the loop runs. *)
Fixpoint deflate_output (api : zlib_api) (e : env) (fuel : nat)
         (s : loop_state api) : list byte :=
  match fuel with
  | O => []
  | S fuel' =>
      match refill api e s with
      | None => []
      | Some s1 =>
          let r := deflate api (ls_codec s1) (ls_in s1) (avail_out s1)
                           (if infile_remaining s1 =? 0 then Z_FINISH
                            else Z_NO_FLUSH) in
          let stored := takeZ (avail_out s1) (d_produced r) in
          match drain api e (d_status r) (snd (compress_step api s1)) with
          | None => stored
          | Some s3 =>
              if d_status r =? Z_STREAM_END then stored
              else if negb (d_status r =? Z_OK) then stored
              else stored ++ deflate_output api e fuel' s3
          end
      end
  end.

(** The loop of the sample run on a three-byte source, from its first
    state to the state it is left in. *)
Definition sample_loop_start : loop_state RefCodec.api :=
  @mkLoop RefCodec.api (RefCodec.mkState 6 [] false) [] [] [x61; x62; x63]
          (gzip_header unix_lp64 5) 3 0 0 0.

Definition sample_loop_exit : loop_exit RefCodec.api :=
  match reading_loop RefCodec.api quiet_env 5 sample_loop_start with
  | Some x => x
  | None => LoopError sample_loop_start
  end.

(** An entry the extraction loop hands to the library: it could be
    examined and is not a directory. *)
Definition is_file_entry (en : zip_entry) : bool :=
  file_stat_ok en && negb (is_directory en).

Definition is_extract_call (c : zip_call) : bool :=
  match c with
  | mz_zip_reader_extract_to_file _ _ _ => true
  | _ => false
  end.

(** What a call of the extraction loop over [entries], numbered from
    [i], may be: an examination of one of these entries, or the
    extraction of one that is a file, to the flat path under the
    extraction directory, with the library's answer for it. *)
Definition reader_call_ok (p : platform) (destDir : string) (i : nat)
           (entries : list zip_entry) (c : zip_call) : Prop :=
  match c with
  | mz_zip_reader_file_stat j _ => (i <= j < i + List.length entries)%nat
  | mz_zip_reader_is_file_a_directory j _ => (i <= j < i + List.length entries)%nat
  | mz_zip_reader_extract_to_file j dst res =>
      exists en,
        (i <= j)%nat
        /\ nth_error entries (j - i) = Some en
        /\ is_file_entry en = true
        /\ res = extract_ok en
        /\ dst = (extraction_dir destDir ++ "/"
                  ++ QFileInfo_fileName p (m_filename en))%string
  | _ => False
  end.

(** An archive with a directory, a file whose extraction fails, and a
    file after it. *)
Definition sample_entries : list zip_entry :=
  [mkEntry true "docs/" true true;
   mkEntry true "docs/a.txt" false false;
   mkEntry true "b.txt" false true].

(** The reference compressor with a [deflateEnd] that fails. *)
Definition failing_end_codec : zlib_api :=
  mkZlib RefCodec.state RefCodec.init RefCodec.step (fun _ => -2).

(** A compressor whose initialisation fails (zlib's Z_STREAM_ERROR). *)
Definition failing_init_codec : zlib_api :=
  mkZlib unit (fun _ _ _ _ _ => (-2, tt))
         (fun c _ _ _ => mkDeflateOut (-2) 0 [] c)
         (fun _ => Z_OK).

(** * Properties *)

(** ** File names and paths *)

Section Names.

Local Open Scope string_scope.

Lemma replace_all_is_sanitize (s : string) :
  calculateNameCompliantWithZipAlgoMiniZ s = sanitize_spec s.
Proof.
  unfold calculateNameCompliantWithZipAlgoMiniZ.
  induction s as [|c s IH]; simpl; [reflexivity|].
  rewrite IH. f_equal.
  unfold is_path_separator.
  destruct (Ascii.eqb c backslash) eqn:Hb; simpl.
  - reflexivity.
  - destruct (Ascii.eqb c slash) eqn:Hs; simpl.
    + reflexivity.
    + destruct (Ascii.eqb c colon); reflexivity.
Qed.

Lemma sanitize_spec_length (s : string) :
  String.length (sanitize_spec s) = String.length s.
Proof. induction s; simpl; congruence. Qed.

(** No separator survives, and every other character stays in place. *)
Lemma sanitize_spec_get (s : string) (n : nat) :
  String.get n (sanitize_spec s) =
  option_map (fun c => if is_path_separator c then underscore else c)
             (String.get n s).
Proof.
  revert n; induction s as [|c s IH]; intros [|n]; simpl; auto.
Qed.

Lemma endsWith_app_slash (s : string) : QString.endsWith (s ++ "/") "/" = true.
Proof.
  induction s as [|c s IH]; [reflexivity|].
  cbn [append QString.endsWith]. rewrite IH.
  destruct (String.eqb _ _); reflexivity.
Qed.

Lemma no_slash_then_one (s : string) :
  QString.endsWith s "/" = false -> QString.endsWith (s ++ "/") "//" = false.
Proof.
  induction s as [|c s IH]; [reflexivity|].
  cbn [append QString.endsWith].
  destruct (String.eqb (String c s) "/") eqn:E1; [discriminate|].
  intros H. rewrite (IH H).
  destruct (String.eqb (String c (s ++ "/")) "//") eqn:E2; [|reflexivity].
  apply String.eqb_eq in E2. injection E2 as Hc Hs.
  destruct s as [|c' s'].
  - subst c. discriminate E1.
  - simpl in Hs. injection Hs as _ Hs. destruct s'; discriminate Hs.
Qed.

End Names.

(** C8. [getCompressedFilename] appends ".gz" for GZIP_ARCHIVE and leaves
    the name otherwise unchanged; for ZIP_ARCHIVE it replaces every
    backslash, slash and colon of the name by an underscore and appends
    ".zip"; for NO_COMPRESSION it returns the name unchanged.  The two
    sample names of the specification come out as stated. *)
Theorem getCompressedFilename_spec :
  (forall name, getCompressedFilename name GZIP_ARCHIVE = (name ++ ".gz")%string)
  /\ (forall name,
        getCompressedFilename name ZIP_ARCHIVE = (sanitize_spec name ++ ".zip")%string)
  /\ (forall name, getCompressedFilename name NO_COMPRESSION = name)
  /\ getCompressedFilename "a/b:c" ZIP_ARCHIVE = "a_b_c.zip"%string
  /\ getCompressedFilename "report.txt" GZIP_ARCHIVE = "report.txt.gz"%string.
Proof.
  repeat split; try reflexivity.
  intros name. simpl. rewrite replace_all_is_sanitize. reflexivity.
Qed.

(** C9, as the specification words it, fails: a directory that already
    ends in two slashes keeps both, so the directory part of the result
    ends with two consecutive separators. *)
Lemma calculateFilenameWithPath_keeps_double_slash :
  ~ (exists d : string,
        calculateFilenameWithPath unix_lp64 "a//" "f" = (d ++ "f")%string
        /\ exactly_one_trailing_separator d).
Proof.
  intros [d [Hd [_ Htwo]]].
  change (calculateFilenameWithPath unix_lp64 "a//" "f") with "a//f"%string in Hd.
  destruct d as [|c1 [|c2 [|c3 [|c4 d]]]]; simpl in Hd; try discriminate Hd.
  - injection Hd as <- <- <-. vm_compute in Htwo. discriminate Htwo.
  - injection Hd as _ _ _ _ Hd. destruct d; discriminate Hd.
Qed.

(** C9, amended. [calculateFilenameWithPath] converts the directory with
    [QDir::fromNativeSeparators], appends one slash only when the
    converted directory does not already end with one, and appends the
    name.  The directory part therefore always ends with a slash; it ends
    with exactly one when the converted directory did not end with two. *)
Theorem calculateFilenameWithPath_spec (p : platform) (dir name : string) :
  let n := fromNativeSeparators p dir in
  let d := if QString.endsWith n "/" then n else (n ++ "/")%string in
  calculateFilenameWithPath p dir name = (d ++ name)%string
  /\ QString.endsWith d "/" = true
  /\ (QString.endsWith n "//" = false -> exactly_one_trailing_separator d).
Proof.
  intros n d. unfold calculateFilenameWithPath. fold n.
  subst d. destruct (QString.endsWith n "/") eqn:E; simpl.
  - repeat split; auto.
  - repeat split.
    + apply endsWith_app_slash.
    + apply endsWith_app_slash.
    + apply no_slash_then_one; assumption.
Qed.

(** ** Bytes and little-endian fields *)

Lemma Z_of_byte_range (b : byte) : 0 <= Z_of_byte b < 256.
Proof.
  unfold Z_of_byte. pose proof (Byte.to_N_bounded b). lia.
Qed.

Lemma Z_of_byte_of_Z (z : Z) : Z_of_byte (byte_of_Z z) = z mod 256.
Proof.
  unfold Z_of_byte, byte_of_Z.
  assert (Hr : 0 <= z mod 256 < 256) by (apply Z.mod_pos_bound; lia).
  destruct (Byte.of_N (Z.to_N (z mod 256))) as [b|] eqn:E.
  - apply Byte.to_of_N in E. rewrite E. lia.
  - apply Byte.of_N_None_iff in E. lia.
Qed.

Lemma byte_of_Z_of_byte (b : byte) : byte_of_Z (Z_of_byte b) = b.
Proof.
  unfold byte_of_Z, Z_of_byte.
  pose proof (Byte.to_N_bounded b).
  rewrite Z.mod_small by lia. rewrite N2Z.id, Byte.of_to_N. reflexivity.
Qed.

Lemma getByte_div (v k : Z) :
  0 <= k <= 3 -> getByte v k = (v / 2 ^ (8 * k)) mod 256.
Proof.
  intros Hk. unfold getByte. cbv zeta.
  rewrite (Z.mod_small k 256) by lia.
  change 255 with (Z.ones 8). rewrite Z.land_ones by lia.
  assert (k = 0 \/ k = 1 \/ k = 2 \/ k = 3) as [-> | [-> | [-> | ->]]] by lia;
    simpl Z.eqb; cbv iota; rewrite Z.shiftr_div_pow2 by lia; reflexivity.
Qed.

(** The four bytes, read back little-endian, are the value's low 32 bits. *)
Lemma le32_decode_le32 (v : Z) : le32_decode (le32 v) = v mod 2 ^ 32.
Proof.
  unfold le32, le32_decode.
  rewrite !Z_of_byte_of_Z, !getByte_div by lia.
  rewrite !Z.mod_mod by lia.
  change (8 * 0) with 0. change (8 * 1) with 8.
  change (8 * 2) with 16. change (8 * 3) with 24.
  change (2 ^ 0) with 1. rewrite Z.div_1_r.
  change (2 ^ 16) with (2 ^ 8 * 2 ^ 8).
  change (2 ^ 24) with (2 ^ 8 * 2 ^ 8 * 2 ^ 8).
  change (2 ^ 32) with (2 ^ 8 * 2 ^ 8 * 2 ^ 8 * 2 ^ 8).
  change (2 ^ 8) with 256.
  rewrite <- !Z.div_div by lia.
  pose proof (Z.div_mod v 256 ltac:(lia)) as H0.
  pose proof (Z.mod_pos_bound v 256 ltac:(lia)) as B0.
  set (q0 := v / 256) in *.
  pose proof (Z.div_mod q0 256 ltac:(lia)) as H1.
  pose proof (Z.mod_pos_bound q0 256 ltac:(lia)) as B1.
  set (q1 := q0 / 256) in *.
  pose proof (Z.div_mod q1 256 ltac:(lia)) as H2.
  pose proof (Z.mod_pos_bound q1 256 ltac:(lia)) as B2.
  set (q2 := q1 / 256) in *.
  pose proof (Z.div_mod q2 256 ltac:(lia)) as H3.
  pose proof (Z.mod_pos_bound q2 256 ltac:(lia)) as B3.
  apply Z.mod_unique with (q := q2 / 256); lia.
Qed.

Lemma le32_mod (v : Z) : le32 (v mod 2 ^ 32) = le32 v.
Proof.
  unfold le32. rewrite !getByte_div by lia.
  assert (H : forall k, 0 <= k <= 3 ->
                        (v mod 2 ^ 32 / 2 ^ (8 * k)) mod 256
                        = (v / 2 ^ (8 * k)) mod 256).
  { intros k Hk.
    rewrite <- !Z.shiftr_div_pow2 by lia.
    change 256 with (2 ^ 8). rewrite <- !Z.land_ones by lia.
    apply Z.bits_inj'. intros n Hn.
    rewrite !Z.land_spec, !Z.shiftr_spec, Z.land_spec by lia.
    destruct (Z.ltb_spec n 8).
    - rewrite (Z.ones_spec_low 32) by lia. rewrite andb_true_r. reflexivity.
    - rewrite (Z.ones_spec_high 8) by lia. rewrite !andb_false_r. reflexivity. }
  rewrite !H by lia. reflexivity.
Qed.

Lemma takeZ_dropZ (n : Z) (l : list byte) : takeZ n l ++ dropZ n l = l.
Proof.
  revert n; induction l as [|x l IH]; intros n; simpl; [reflexivity|].
  destruct (0 <? n); simpl; [rewrite IH|]; reflexivity.
Qed.

Lemma lengthZ_nonneg (l : list byte) : 0 <= lengthZ l.
Proof. unfold lengthZ; lia. Qed.

Lemma lengthZ_app (a b : list byte) : lengthZ (a ++ b) = lengthZ a + lengthZ b.
Proof. unfold lengthZ. rewrite length_app. lia. Qed.

Lemma lengthZ_nil_inv (l : list byte) : lengthZ l = 0 -> l = [].
Proof. destruct l; [reflexivity|]. unfold lengthZ; simpl; lia. Qed.

Lemma lengthZ_takeZ (n : Z) (l : list byte) :
  0 <= n <= lengthZ l -> lengthZ (takeZ n l) = n.
Proof.
  revert n; induction l as [|x l IH]; intros n Hn.
  - unfold lengthZ in *; simpl in *; lia.
  - simpl. destruct (Z.ltb_spec 0 n).
    + change (lengthZ (x :: takeZ (n - 1) l)) with
        (Z.of_nat (S (List.length (takeZ (n - 1) l)))).
      rewrite Nat2Z.inj_succ. fold (lengthZ (takeZ (n - 1) l)).
      rewrite IH; [lia|]. unfold lengthZ in *; simpl List.length in Hn; lia.
    + unfold lengthZ; simpl; lia.
Qed.

Lemma lengthZ_cons (x : byte) (l : list byte) : lengthZ (x :: l) = lengthZ l + 1.
Proof. unfold lengthZ. simpl List.length. lia. Qed.

Lemma dropZ_app_exact (a b : list byte) : dropZ (lengthZ a) (a ++ b) = b.
Proof.
  induction a as [|x a IH].
  - destruct b; reflexivity.
  - cbn [app dropZ]. rewrite lengthZ_cons.
    pose proof (lengthZ_nonneg a).
    replace (0 <? lengthZ a + 1) with true by (symmetry; apply Z.ltb_lt; lia).
    replace (lengthZ a + 1 - 1) with (lengthZ a) by lia.
    exact IH.
Qed.

(** ** The frame writers *)

Lemma writeGzipHeader_bytes (p : platform) (pFile : list byte) (mtime : Z) :
  writeGzipHeader p pFile mtime = (0, pFile ++ gzip_header p mtime).
Proof.
  unfold writeGzipHeader, QFile_write, gzip_header, os_byte, le32.
  rewrite <- !app_assoc. simpl. destruct (WIN32 p); reflexivity.
Qed.

Lemma writeGzipFooter_bytes (pFile : list byte) (crc size : Z) :
  writeGzipFooter pFile crc size = (0, pFile ++ le32 crc ++ le32 size).
Proof.
  unfold writeGzipFooter, QFile_write, le32.
  rewrite <- !app_assoc. reflexivity.
Qed.

(** ** CRC-32 over chunks *)

Lemma quint32_range (z : Z) : 0 <= to_quint32 z < 2 ^ 32.
Proof. unfold to_quint32. apply Z.mod_pos_bound. lia. Qed.

Lemma lxor_range (a b : Z) :
  0 <= a < 2 ^ 32 -> 0 <= b < 2 ^ 32 -> 0 <= Z.lxor a b < 2 ^ 32.
Proof.
  intros Ha Hb.
  assert (Hm : Z.lxor a b mod 2 ^ 32 = Z.lxor a b).
  { apply Z.bits_inj'. intros n Hn.
    destruct (Z.ltb_spec n 32).
    - rewrite Z.mod_pow2_bits_low by lia. reflexivity.
    - rewrite Z.mod_pow2_bits_high by lia.
      rewrite Z.lxor_spec.
      rewrite <- (Z.mod_small a (2 ^ 32)), <- (Z.mod_small b (2 ^ 32)) by lia.
      rewrite !Z.mod_pow2_bits_high by lia. reflexivity. }
  rewrite <- Hm. apply Z.mod_pos_bound. lia.
Qed.

Lemma crc32_shift_range (c : Z) : 0 <= c < 2 ^ 32 -> 0 <= crc32_shift c < 2 ^ 32.
Proof.
  intros Hc. unfold crc32_shift.
  assert (Hs : 0 <= Z.shiftr c 1 < 2 ^ 32).
  { rewrite Z.shiftr_div_pow2 by lia. change (2 ^ 1) with 2.
    split; [apply Z.div_pos; lia|].
    apply Z.div_lt_upper_bound; lia. }
  destruct (Z.testbit c 0); [|exact Hs].
  apply lxor_range; [exact Hs|]. unfold crc32_poly. lia.
Qed.

Lemma crc32_byte_range (c : Z) (b : byte) :
  0 <= c < 2 ^ 32 -> 0 <= crc32_byte c b < 2 ^ 32.
Proof.
  intros Hc. unfold crc32_byte.
  do 8 apply crc32_shift_range.
  apply lxor_range; [exact Hc|].
  pose proof (Z_of_byte_range b). lia.
Qed.

Lemma crc32_fold_range (buf : list byte) (c : Z) :
  0 <= c < 2 ^ 32 -> 0 <= fold_left crc32_byte buf c < 2 ^ 32.
Proof.
  revert c; induction buf as [|b buf IH]; intros c Hc; simpl; [exact Hc|].
  apply IH, crc32_byte_range, Hc.
Qed.

Lemma mz_crc32_range (crc : Z) (ptr : option (list byte)) :
  0 <= mz_crc32 crc ptr < 2 ^ 32.
Proof.
  destruct ptr as [buf|]; simpl; [|unfold MZ_CRC32_INIT; lia].
  apply lxor_range; [|lia].
  apply crc32_fold_range, lxor_range; [apply quint32_range|lia].
Qed.

Lemma lxor_twice (a m : Z) : Z.lxor (Z.lxor a m) m = a.
Proof. rewrite Z.lxor_assoc, Z.lxor_nilpotent, Z.lxor_0_r. reflexivity. Qed.

(** Feeding a buffer in two pieces gives the checksum of the whole. *)
Lemma mz_crc32_app (crc : Z) (a b : list byte) :
  mz_crc32 (mz_crc32 crc (Some a)) (Some b) = mz_crc32 crc (Some (a ++ b)).
Proof.
  pose proof (mz_crc32_range crc (Some a)) as Hr.
  unfold mz_crc32 in *. unfold to_quint32 at 1.
  rewrite Z.mod_small by exact Hr.
  rewrite lxor_twice, fold_left_app. reflexivity.
Qed.

Lemma mz_crc32_nil (crc : Z) : 0 <= crc < 2 ^ 32 -> mz_crc32 crc (Some []) = crc.
Proof.
  intros H. unfold mz_crc32, to_quint32. simpl.
  rewrite Z.mod_small by exact H. apply lxor_twice.
Qed.

(** The value the loop starts from is the checksum of no bytes at all. *)
Lemma crc_seed_is_crc_of_empty : mz_crc32 0 None = crc32_of [].
Proof. reflexivity. Qed.

(** ** The reading loop *)

Section GzipLoop.

Variable p : platform.
Variable api : zlib_api.
Variable e : env.

Local Opaque mz_crc32.

Lemma lengthZ_dropZ (n : Z) (l : list byte) :
  0 <= n <= lengthZ l -> lengthZ (dropZ n l) = lengthZ l - n.
Proof.
  intros Hn.
  pose proof (lengthZ_takeZ n l Hn) as Ht.
  pose proof (f_equal lengthZ (takeZ_dropZ n l)) as Hl.
  rewrite lengthZ_app in Hl. lia.
Qed.

Lemma refill_crc_inv (F : list byte) (s s1 : loop_state api) :
  refill api e s = Some s1 -> crc_inv F s -> crc_inv F s1.
Proof.
  unfold refill. destruct (ls_in s).
  - destruct (read_ok e (ls_reads s)); [|discriminate].
    intros H; injection H as <-. intros (Hrem & Hrange & Hcrc).
    unfold crc_inv; cbn [infile_remaining ls_fin ls_crc].
    pose proof (lengthZ_nonneg (ls_fin s)).
    assert (Hn : 0 <= Z.min BUF_SIZE (infile_remaining s) <= lengthZ (ls_fin s))
      by (unfold BUF_SIZE; lia).
    split; [|split].
    + rewrite lengthZ_dropZ by exact Hn. lia.
    + apply mz_crc32_range.
    + rewrite mz_crc32_app, takeZ_dropZ. exact Hcrc.
  - intros H; injection H as <-. auto.
Qed.

Lemma refill_fout (s s1 : loop_state api) :
  refill api e s = Some s1 -> ls_fout s1 = ls_fout s.
Proof.
  unfold refill. destruct (ls_in s).
  - destruct (read_ok e (ls_reads s)); [|discriminate].
    intros H; injection H as <-. reflexivity.
  - intros H; injection H as <-. reflexivity.
Qed.

Lemma drain_crc_inv (F : list byte) (status : Z) (s s1 : loop_state api) :
  drain api e status s = Some s1 -> crc_inv F s -> crc_inv F s1.
Proof.
  unfold drain.
  destruct ((status =? Z_STREAM_END) || (avail_out s =? 0)).
  - destruct (write_ok e (ls_writes s)); [|discriminate].
    intros H; injection H as <-. auto.
  - intros H; injection H as <-. auto.
Qed.

Lemma drain_fout (status : Z) (s s1 : loop_state api) :
  drain api e status s = Some s1 ->
  exists out, ls_fout s1 = ls_fout s ++ out.
Proof.
  unfold drain.
  destruct ((status =? Z_STREAM_END) || (avail_out s =? 0)).
  - destruct (write_ok e (ls_writes s)); [|discriminate].
    intros H; injection H as <-. exists (ls_out s). reflexivity.
  - intros H; injection H as <-. exists []. rewrite app_nil_r. reflexivity.
Qed.

(** Whatever way the loop is left, the destination has only grown. *)
Lemma reading_loop_fout (fuel : nat) (s : loop_state api) (x : loop_exit api) :
  reading_loop api e fuel s = Some x ->
  exists out, ls_fout (exit_state x) = ls_fout s ++ out.
Proof.
  revert s x; induction fuel as [|fuel IH]; intros s x; [discriminate|].
  cbn [reading_loop].
  destruct (refill api e s) as [s1|] eqn:Hre.
  - apply refill_fout in Hre.
    unfold compress_step.
    set (r := deflate api _ _ _ _).
    set (s2 := mkLoop _ _ _ _ _ _ _ _ _).
    assert (H2 : ls_fout s2 = ls_fout s) by exact Hre.
    clearbody s2 r.
    destruct (drain api e (d_status r) s2) as [s3|] eqn:Hdr.
    + apply drain_fout in Hdr. destruct Hdr as [out Hout].
      rewrite H2 in Hout.
      destruct (d_status r =? Z_STREAM_END).
      * intros H; injection H as <-. exists out. exact Hout.
      * destruct (negb (d_status r =? Z_OK)).
        -- intros H; injection H as <-. exists out. exact Hout.
        -- intros H. apply IH in H. destruct H as [out' H].
           exists (out ++ out'). rewrite H, Hout, app_assoc. reflexivity.
    + intros H; injection H as <-. exists [].
      cbn [exit_state]. rewrite H2, app_nil_r. reflexivity.
  - intros H; injection H as <-. exists []. rewrite app_nil_r. reflexivity.
Qed.

(** When the loop is left by [break], everything has been read and the
    running checksum is that of the whole source. *)
Lemma drain_remaining (status : Z) (s s1 : loop_state api) :
  drain api e status s = Some s1 ->
  infile_remaining s1 = infile_remaining s /\ ls_crc s1 = ls_crc s
  /\ ls_fin s1 = ls_fin s.
Proof.
  unfold drain.
  destruct ((status =? Z_STREAM_END) || (avail_out s =? 0)).
  - destruct (write_ok e (ls_writes s)); [|discriminate].
    intros H; injection H as <-. auto.
  - intros H; injection H as <-. auto.
Qed.

Lemma reading_loop_crc (F : list byte) (fuel : nat) (s s' : loop_state api) :
  stream_end_only_on_finish api ->
  crc_inv F s ->
  reading_loop api e fuel s = Some (LoopBreak s') ->
  ls_crc s' = crc32_of F.
Proof.
  intros Hapi. revert s; induction fuel as [|fuel IH]; intros s Hinv; [discriminate|].
  cbn [reading_loop].
  destruct (refill api e s) as [s1|] eqn:Hre; [|discriminate].
  apply (refill_crc_inv F) in Hre; [|exact Hinv].
  unfold compress_step.
  set (flush := if infile_remaining s1 =? 0 then Z_FINISH else Z_NO_FLUSH).
  set (r := deflate api _ _ _ _).
  set (s2 := mkLoop _ _ _ _ _ _ _ _ _).
  assert (Hinv2 : crc_inv F s2) by exact Hre.
  assert (Hrem2 : infile_remaining s2 = infile_remaining s1) by reflexivity.
  assert (Hend : d_status r = Z_STREAM_END -> flush = Z_FINISH)
    by (apply Hapi).
  clearbody s2 r.
  destruct (drain api e (d_status r) s2) as [s3|] eqn:Hdr; [|discriminate].
  pose proof (drain_remaining _ _ _ Hdr) as (Hrem3 & Hcrc3 & Hfin3).
  apply (drain_crc_inv F) in Hdr; [|exact Hinv2].
  destruct (d_status r =? Z_STREAM_END) eqn:Est.
  - intros H; injection H as <-.
    apply Z.eqb_eq in Est. specialize (Hend Est).
    destruct Hdr as (Hlen & Hrange & Hcrc).
    assert (Hzero : infile_remaining s3 = 0).
    { rewrite Hrem3, Hrem2. subst flush.
      destruct (Z.eqb_spec (infile_remaining s1) 0); [assumption|discriminate]. }
    rewrite Hzero in Hlen. symmetry in Hlen. apply lengthZ_nil_inv in Hlen.
    rewrite Hlen, mz_crc32_nil in Hcrc by exact Hrange. exact Hcrc.
  - destruct (negb (d_status r =? Z_OK)); [discriminate|].
    intros H. apply (IH s3); assumption.
Qed.

(** ** The whole call *)

Lemma some_pair_inv {A B : Type} (a a' : A) (b b' : B) :
  Some (a, b) = Some (a', b') -> a = a' /\ b = b'.
Proof. intros H; injection H; auto. Qed.

Lemma le32_quint32 (v : Z) : le32 (to_quint32 v) = le32 v.
Proof. apply le32_mod. Qed.

Lemma dest_bytes_write_file (w : world) (f d : string) (data : list byte) :
  dest_bytes p
    (write_file e w
       (calculateFilenameWithPath p d (getCompressedFilename f GZIP_ARCHIVE))
       data) f d
  = Some data.
Proof.
  unfold dest_bytes, write_file, fs_put. cbn [fs].
  rewrite String.eqb_refl. reflexivity.
Qed.

(** Every run that opened both files left a destination that starts
    with the header, whatever happened afterwards. *)
Lemma compressGzipFile_header_first
      (fuel : nat) (w w' : world) (f sdir ddir : string) (lvl r : Z) :
  compressGzipFile p api e fuel w f sdir ddir lvl = Some (r, w') ->
  r <> E_FILE_NOT_OPEN ->
  exists src rest,
    fs w (calculateFilenameWithPath p sdir f) = Some src
    /\ dest_bytes p w' f ddir
       = Some (gzip_header p (to_quint32 (Z.quot (f_lastModified src) 1000))
                 ++ rest).
Proof.
  unfold compressGzipFile.
  destruct (fs w (calculateFilenameWithPath p sdir f)) as [src|];
    [|intros H; injection H as <- _; congruence].
  set (dest := calculateFilenameWithPath p ddir (getCompressedFilename f GZIP_ARCHIVE)).
  set (w0 := if open_write_ok e dest then write_file e w dest [] else w).
  destruct (negb _); [intros H; injection H as <- _; congruence|].
  rewrite writeGzipHeader_bytes. cbn [snd app].
  set (hdr := gzip_header p _).
  destruct (deflateInit2 api lvl _ _ _ _) as [init c].
  destruct (negb (init =? Z_OK)).
  { intros H _; injection H as _ <-. exists src, []. split; [reflexivity|].
    subst dest. rewrite dest_bytes_write_file, app_nil_r. reflexivity. }
  destruct (reading_loop api e fuel _) as [x|] eqn:Hloop; [|discriminate].
  apply reading_loop_fout in Hloop. destruct Hloop as [out Hout].
  cbn [ls_fout] in Hout.
  destruct x as [s|s]; cbn [exit_state] in Hout.
  - destruct (negb (deflateEnd api (ls_codec s) =? Z_OK)).
    + intros H _; injection H as _ <-. exists src, out. split; [reflexivity|].
      subst dest. rewrite dest_bytes_write_file, Hout. reflexivity.
    + rewrite writeGzipFooter_bytes. cbn [snd].
      intros H _; injection H as _ <-. eexists src, _. split; [reflexivity|].
      subst dest. rewrite dest_bytes_write_file, Hout, <- app_assoc. reflexivity.
  - intros H _; injection H as _ <-. exists src, out. split; [reflexivity|].
    subst dest. rewrite dest_bytes_write_file, Hout. reflexivity.
Qed.

(** A run that returns [Z_OK] wrote header, payload, checksum and size,
    in this order; the size is the source length masked with
    [LONG_MAX - 1]. *)
Lemma compressGzipFile_ok_layout
      (fuel : nat) (w w' : world) (f sdir ddir : string) (lvl : Z) :
  compressGzipFile p api e fuel w f sdir ddir lvl = Some (Z_OK, w') ->
  exists src payload crc,
    fs w (calculateFilenameWithPath p sdir f) = Some src
    /\ dest_bytes p w' f ddir
       = Some (gzip_header p (to_quint32 (Z.quot (f_lastModified src) 1000))
                 ++ payload ++ le32 crc
                 ++ le32 (Z.land (lengthZ (f_bytes src)) (LONG_MAX p - 1)))
    /\ (stream_end_only_on_finish api -> crc = crc32_of (f_bytes src)).
Proof.
  unfold compressGzipFile.
  destruct (fs w (calculateFilenameWithPath p sdir f)) as [src|];
    [|intros H; discriminate H].
  set (dest := calculateFilenameWithPath p ddir (getCompressedFilename f GZIP_ARCHIVE)).
  set (w0 := if open_write_ok e dest then write_file e w dest [] else w).
  destruct (negb _); [intros H; discriminate H|].
  rewrite writeGzipHeader_bytes. cbn [snd app].
  set (hdr := gzip_header p _).
  destruct (deflateInit2 api lvl _ _ _ _) as [init c].
  destruct (negb (init =? Z_OK)); [intros H; discriminate H|].
  destruct (reading_loop api e fuel _) as [x|] eqn:Hloop; [|discriminate].
  destruct x as [s|s]; [|intros H; discriminate H].
  destruct (negb (deflateEnd api (ls_codec s) =? Z_OK)); [intros H; discriminate H|].
  rewrite writeGzipFooter_bytes, !le32_quint32. cbn [snd].
  intros H; apply some_pair_inv in H; destruct H as [_ <-].
  pose proof (reading_loop_fout _ _ _ Hloop) as [out Hout].
  cbn [ls_fout exit_state] in Hout.
  exists src, out, (ls_crc s). split; [reflexivity|]. split.
  - subst dest. rewrite dest_bytes_write_file, Hout, <- app_assoc.
    reflexivity.
  - intros Hapi. refine (reading_loop_crc (f_bytes src) fuel _ s Hapi _ Hloop).
    unfold crc_inv. cbn [infile_remaining ls_fin ls_crc].
    split; [reflexivity|]. split; [apply mz_crc32_range|].
    rewrite crc_seed_is_crc_of_empty. unfold crc32_of.
    rewrite mz_crc32_app. reflexivity.
Qed.

End GzipLoop.

(** ** The reference compressor respects the interface *)

Lemma RefCodec_stream_end : stream_end_only_on_finish RefCodec.api.
Proof.
  intros c input room flush. cbn [deflate RefCodec.api].
  unfold RefCodec.step. cbn [d_status].
  destruct (Z.eqb_spec flush Z_FINISH) as [E|E]; [intros _; exact E|].
  cbn [andb]. discriminate.
Qed.

(** ** The gzip footer *)

Lemma masked_size_is_even (p : platform) (len : Z) :
  known_data_model p ->
  Z.odd (Z.land len (LONG_MAX p - 1) mod 2 ^ 32) = false.
Proof.
  intros Hp. rewrite <- Z.bit0_odd.
  rewrite Z.mod_pow2_bits_low by lia.
  rewrite Z.land_spec, !Z.bit0_odd.
  destruct Hp as [-> | ->]; apply andb_false_r.
Qed.

Lemma odd_mod_2_32 (len : Z) : Z.odd (len mod 2 ^ 32) = Z.odd len.
Proof.
  rewrite <- !Z.bit0_odd. apply Z.mod_pow2_bits_low. lia.
Qed.

(** C1.  On every platform the size field of a successful run holds the
    source length masked with [LONG_MAX - 1] (reduced to 32 bits), which
    clears the lowest bit: for a source of odd length the field is not
    [len mod 2^32], the value the specification and the comment in the
    source give for it. *)
Theorem gzip_footer_size_wrong_for_odd_length
        (p : platform) (api : zlib_api) (e : env) (fuel : nat)
        (w w' : world) (f sdir ddir : string) (lvl : Z) :
  known_data_model p ->
  compressGzipFile p api e fuel w f sdir ddir lvl = Some (Z_OK, w') ->
  exists src front isize,
    fs w (calculateFilenameWithPath p sdir f) = Some src
    /\ dest_bytes p w' f ddir = Some (front ++ isize)
    /\ List.length isize = 4%nat
    /\ le32_decode isize
       = Z.land (lengthZ (f_bytes src)) (LONG_MAX p - 1) mod 2 ^ 32
    /\ (Z.odd (lengthZ (f_bytes src)) = true ->
        le32_decode isize <> lengthZ (f_bytes src) mod 2 ^ 32).
Proof.
  intros Hp Hrun.
  destruct (compressGzipFile_ok_layout p api e _ _ _ _ _ _ _ Hrun)
    as (src & payload & crc & Hsrc & Hdest & _).
  exists src, (gzip_header p (to_quint32 (Z.quot (f_lastModified src) 1000))
               ++ payload ++ le32 crc),
    (le32 (Z.land (lengthZ (f_bytes src)) (LONG_MAX p - 1))).
  split; [exact Hsrc|]. split; [rewrite Hdest, <- !app_assoc; reflexivity|].
  split; [reflexivity|]. split; [apply le32_decode_le32|].
  intros Hodd Heq. rewrite le32_decode_le32 in Heq.
  pose proof (masked_size_is_even p (lengthZ (f_bytes src)) Hp) as Heven.
  rewrite Heq, odd_mod_2_32, Hodd in Heven. discriminate.
Qed.

Lemma gzip_footer_size_wrong_for_odd_length_witness :
  known_data_model unix_lp64
  /\ gzip_sample unix_lp64 [x61] 5000 6
     = Some (Z_OK, world_after (gzip_sample unix_lp64 [x61] 5000 6))
  /\ exists src front isize,
      fs (one_file "d/f" [x61] 5000) (calculateFilenameWithPath unix_lp64 "d" "f")
      = Some src
      /\ dest_bytes unix_lp64 (world_after (gzip_sample unix_lp64 [x61] 5000 6))
                    "f" "o" = Some (front ++ isize)
      /\ List.length isize = 4%nat
      /\ le32_decode isize
         = Z.land (lengthZ (f_bytes src)) (LONG_MAX unix_lp64 - 1) mod 2 ^ 32
      /\ (Z.odd (lengthZ (f_bytes src)) = true ->
          le32_decode isize <> lengthZ (f_bytes src) mod 2 ^ 32).
Proof.
  assert (Hp : known_data_model unix_lp64) by (right; reflexivity).
  assert (Hrun : gzip_sample unix_lp64 [x61] 5000 6
                 = Some (Z_OK, world_after (gzip_sample unix_lp64 [x61] 5000 6)))
    by (vm_compute; reflexivity).
  split; [exact Hp|]. split; [exact Hrun|].
  exact (gzip_footer_size_wrong_for_odd_length
           unix_lp64 RefCodec.api quiet_env 5 _ _ "f" "d" "o" 6 Hp Hrun).
Defined.

(** The failing input of C1 evaluated: a one-byte source on a 64-bit Unix
    and on Windows gets the size field 0. *)
Example gzip_one_byte_size_field :
  option_map (fun out => le32_decode (dropZ (lengthZ out - 4) out))
    (dest_bytes unix_lp64 (world_after (gzip_sample unix_lp64 [x61] 5000 6)) "f" "o")
  = Some 0
  /\ option_map (fun out => le32_decode (dropZ (lengthZ out - 4) out))
       (dest_bytes windows_llp64
          (world_after (gzip_sample windows_llp64 [x61] 5000 6)) "f" "o")
     = Some 0.
Proof. split; vm_compute; reflexivity. Qed.

(** C2.  For a compressor that keeps zlib's contract, a successful run
    ends the destination with the CRC-32 of all the source bytes followed
    by the four size bytes: the running value starts at the checksum of
    the empty input and the chunk-wise updates add up to the checksum of
    the whole file. *)
Theorem gzip_footer_crc32
        (p : platform) (api : zlib_api) (e : env) (fuel : nat)
        (w w' : world) (f sdir ddir : string) (lvl : Z) :
  stream_end_only_on_finish api ->
  compressGzipFile p api e fuel w f sdir ddir lvl = Some (Z_OK, w') ->
  exists src front isize,
    fs w (calculateFilenameWithPath p sdir f) = Some src
    /\ dest_bytes p w' f ddir
       = Some (front ++ le32 (crc32_of (f_bytes src)) ++ isize)
    /\ List.length isize = 4%nat
    /\ le32_decode (le32 (crc32_of (f_bytes src))) = crc32_of (f_bytes src)
    /\ mz_crc32 0 None = crc32_of []
    /\ (forall chunks : list (list byte),
          fold_left (fun crc chunk => mz_crc32 crc (Some chunk)) chunks
                    (mz_crc32 0 None)
          = crc32_of (List.concat chunks)).
Proof.
  intros Hapi Hrun.
  destruct (compressGzipFile_ok_layout p api e _ _ _ _ _ _ _ Hrun)
    as (src & payload & crc & Hsrc & Hdest & Hcrc).
  specialize (Hcrc Hapi). subst crc.
  exists src, (gzip_header p (to_quint32 (Z.quot (f_lastModified src) 1000))
               ++ payload),
    (le32 (Z.land (lengthZ (f_bytes src)) (LONG_MAX p - 1))).
  split; [exact Hsrc|]. split; [rewrite Hdest, <- !app_assoc; reflexivity|].
  split; [reflexivity|]. split.
  { rewrite le32_decode_le32. apply Z.mod_small, mz_crc32_range. }
  split; [reflexivity|].
  intros chunks. unfold crc32_of.
  change (mz_crc32 0 None) with MZ_CRC32_INIT.
  assert (H : forall c, 0 <= c < 2 ^ 32 ->
                        fold_left (fun crc chunk => mz_crc32 crc (Some chunk)) chunks c
                        = mz_crc32 c (Some (List.concat chunks))).
  { induction chunks as [|ch chunks IH]; intros c Hc.
    - symmetry. apply mz_crc32_nil. exact Hc.
    - cbn [fold_left List.concat]. rewrite IH by apply mz_crc32_range.
      apply mz_crc32_app. }
  apply H. unfold MZ_CRC32_INIT. lia.
Qed.

Lemma gzip_footer_crc32_witness :
  stream_end_only_on_finish RefCodec.api
  /\ gzip_sample unix_lp64 [x61; x62; x63] 5000 6
     = Some (Z_OK, world_after (gzip_sample unix_lp64 [x61; x62; x63] 5000 6))
  /\ exists src front isize,
      fs (one_file "d/f" [x61; x62; x63] 5000)
         (calculateFilenameWithPath unix_lp64 "d" "f") = Some src
      /\ dest_bytes unix_lp64
           (world_after (gzip_sample unix_lp64 [x61; x62; x63] 5000 6)) "f" "o"
         = Some (front ++ le32 (crc32_of (f_bytes src)) ++ isize)
      /\ List.length isize = 4%nat
      /\ le32_decode (le32 (crc32_of (f_bytes src))) = crc32_of (f_bytes src)
      /\ mz_crc32 0 None = crc32_of []
      /\ (forall chunks : list (list byte),
            fold_left (fun crc chunk => mz_crc32 crc (Some chunk)) chunks
                      (mz_crc32 0 None)
            = crc32_of (List.concat chunks)).
Proof.
  assert (Hrun : gzip_sample unix_lp64 [x61; x62; x63] 5000 6
                 = Some (Z_OK,
                         world_after (gzip_sample unix_lp64 [x61; x62; x63] 5000 6)))
    by (vm_compute; reflexivity).
  split; [exact RefCodec_stream_end|]. split; [exact Hrun|].
  exact (gzip_footer_crc32 unix_lp64 RefCodec.api quiet_env 5 _ _ "f" "d" "o" 6
           RefCodec_stream_end Hrun).
Defined.

(** The checksum model on the standard check value. *)
Example crc32_check_value :
  crc32_of [x31; x32; x33; x34; x35; x36; x37; x38; x39] = 0xCBF43926.
Proof. vm_compute. reflexivity. Qed.
Section EmptyFile.

Variable p : platform.
Variable api : zlib_api.
Variable e : env.

Lemma takeZ_all (n : Z) (l : list byte) : lengthZ l <= n -> takeZ n l = l.
Proof.
  revert n; induction l as [|x l IH]; intros n Hn; [reflexivity|].
  rewrite lengthZ_cons in Hn. pose proof (lengthZ_nonneg l).
  cbn [takeZ]. replace (0 <? n) with true by (symmetry; apply Z.ltb_lt; lia).
  rewrite IH by lia. reflexivity.
Qed.

(** The loop on a source without bytes: one read of nothing, one call
    of [deflate] with [Z_FINISH], one write of what it produced. *)
Lemma reading_loop_empty_source
      (fuel : nat) (c0 c1 : codec api) (k : Z) (payload hdr : list byte) (crc : Z) :
  read_ok e 0 = true -> write_ok e 0 = true ->
  deflate api c0 [] BUF_SIZE Z_FINISH = mkDeflateOut Z_STREAM_END k payload c1 ->
  lengthZ payload <= BUF_SIZE ->
  exists s,
    reading_loop api e (S fuel) (mkLoop c0 [] [] [] hdr 0 crc 0 0)
    = Some (LoopBreak s)
    /\ ls_codec s = c1 /\ ls_fout s = hdr ++ payload
    /\ ls_crc s = mz_crc32 crc (Some []).
Proof.
  intros Hr Hw Hd Hlen.
  cbn [reading_loop]. unfold refill. cbn [ls_in ls_reads infile_remaining
    ls_fin ls_crc ls_codec ls_out ls_fout ls_writes].
  rewrite Hr. cbn [negb].
  change (Z.min BUF_SIZE 0) with 0. cbn [takeZ dropZ].
  unfold compress_step. cbn [ls_in ls_reads infile_remaining
    ls_fin ls_crc ls_codec ls_out ls_fout ls_writes].
  change (0 - 0 =? 0) with true. cbv iota.
  change (avail_out (mkLoop c0 [] [] [] hdr (0 - 0) (mz_crc32 crc (Some [])) 1 0))
    with BUF_SIZE.
  rewrite Hd. cbn [d_status d_consumed d_produced d_codec app].
  rewrite (takeZ_all _ _ Hlen).
  unfold drain. change (Z_STREAM_END =? Z_STREAM_END) with true.
  cbn [orb ls_writes]. rewrite Hw. cbn [negb].
  eexists. split; [reflexivity|]. cbn. auto.
Qed.

(** C5, amended.  For a source without bytes, a compressor that closes
    the empty stream in one call, and no I/O failure, the call succeeds
    and the destination is the 10-byte header, then whatever bytes the
    compressor produced for the empty input, then 8 footer bytes
    holding the checksum of the empty input (0) and the size 0: in all
    18 bytes plus the length of the compressor's output, and exactly 18
    only for a compressor that produces nothing. *)
Theorem gzip_empty_source
        (fuel : nat) (w : world) (f sdir ddir : string) (lvl : Z)
        (src : file) (c0 c1 : codec api) (k : Z) (payload : list byte) :
  fs w (calculateFilenameWithPath p sdir f) = Some src ->
  f_bytes src = [] ->
  open_read_ok e (calculateFilenameWithPath p sdir f) = true ->
  open_write_ok e (calculateFilenameWithPath p ddir
                     (getCompressedFilename f GZIP_ARCHIVE)) = true ->
  read_ok e 0 = true ->
  write_ok e 0 = true ->
  deflateInit2 api lvl MZ_DEFLATED (- MZ_DEFAULT_WINDOW_BITS) 9
               MZ_DEFAULT_STRATEGY = (Z_OK, c0) ->
  deflate api c0 [] BUF_SIZE Z_FINISH
  = mkDeflateOut Z_STREAM_END k payload c1 ->
  lengthZ payload <= BUF_SIZE ->
  deflateEnd api c1 = Z_OK ->
  exists w' out,
    compressGzipFile p api e (S fuel) w f sdir ddir lvl = Some (Z_OK, w')
    /\ dest_bytes p w' f ddir = Some out
    /\ out = gzip_header p (to_quint32 (Z.quot (f_lastModified src) 1000))
               ++ payload ++ le32 (crc32_of []) ++ le32 0
    /\ crc32_of [] = 0
    /\ le32 0 = [x00; x00; x00; x00]
    /\ lengthZ out = 18 + lengthZ payload
    /\ (lengthZ out = 18 <-> payload = []).
Proof.
  intros Hsrc Hbytes Hfin Hfout Hr Hw Hinit Hd Hlen Hend.
  destruct (reading_loop_empty_source fuel c0 c1 k payload
              (gzip_header p (to_quint32 (Z.quot (f_lastModified src) 1000)))
              (mz_crc32 0 None) Hr Hw Hd Hlen)
    as (s & Hloop & Hc & Hout & Hcrc).
  unfold compressGzipFile.
  rewrite Hsrc, Hfin, Hfout. cbn [andb negb].
  rewrite writeGzipHeader_bytes. cbn [snd app].
  rewrite Hinit. change (negb (Z_OK =? Z_OK)) with false. cbv iota.
  rewrite Hbytes. change (lengthZ []) with 0.
  rewrite Hloop, Hc, Hend. change (negb (Z_OK =? Z_OK)) with false. cbv iota.
  rewrite writeGzipFooter_bytes, !le32_quint32. cbn [snd].
  rewrite Hout, Hcrc.
  eexists. eexists. split; [reflexivity|].
  rewrite dest_bytes_write_file.
  split; [reflexivity|]. split.
  { rewrite <- app_assoc. reflexivity. }
  split; [reflexivity|]. split; [reflexivity|].
  rewrite !lengthZ_app.
  assert (H4 : forall v, lengthZ (le32 v) = 4) by reflexivity.
  assert (H10 : forall v, lengthZ (gzip_header p v) = 10) by reflexivity.
  rewrite !H4, H10. split; [lia|].
  split.
  - intros H. apply lengthZ_nil_inv. lia.
  - intros ->. reflexivity.
Qed.

End EmptyFile.

Lemma gzip_empty_source_witness :
  exists w' out,
    compressGzipFile unix_lp64 RefCodec.api quiet_env 1 (one_file "d/f" [] 5000)
                     "f" "d" "o" 6 = Some (Z_OK, w')
    /\ dest_bytes unix_lp64 w' "f" "o" = Some out
    /\ out = gzip_header unix_lp64 (to_quint32 (Z.quot 5000 1000))
               ++ [x03; x00] ++ le32 (crc32_of []) ++ le32 0
    /\ crc32_of [] = 0
    /\ le32 0 = [x00; x00; x00; x00]
    /\ lengthZ out = 18 + lengthZ [x03; x00]
    /\ (lengthZ out = 18 <-> [x03; x00] = []).
Proof.
  refine (gzip_empty_source unix_lp64 RefCodec.api quiet_env 0
            (one_file "d/f" [] 5000) "f" "d" "o" 6
            (mkFile [] 5000) (RefCodec.mkState 6 [] false)
            (RefCodec.mkState 6 [] true) 0 [x03; x00]
            _ _ _ _ _ _ _ _ _ _);
    try reflexivity.
  vm_compute. discriminate.
Defined.

(** C5, as the specification words it, fails: the reference compressor
    closes the empty input with a final block, two bytes at level 6, so
    its payload is not empty and the destination has 20 bytes. *)
Lemma gzip_empty_source_is_not_18_bytes :
  ~ (forall out,
        option_map (fun w' => dest_bytes unix_lp64 w' "f" "o")
          (option_map snd (gzip_sample unix_lp64 [] 5000 6)) = Some (Some out) ->
        lengthZ out = 18).
Proof.
  intros H.
  specialize (H (gzip_header unix_lp64 5 ++ [x03; x00] ++ le32 0 ++ le32 0)).
  assert (Hrun : option_map (fun w' => dest_bytes unix_lp64 w' "f" "o")
                   (option_map snd (gzip_sample unix_lp64 [] 5000 6))
                 = Some (Some (gzip_header unix_lp64 5 ++ [x03; x00]
                                 ++ le32 0 ++ le32 0)))
    by (vm_compute; reflexivity).
  specialize (H Hrun). vm_compute in H. discriminate H.
Qed.

(** The same source at level 6 and at level 0: 20 and 23 bytes. *)
Example gzip_empty_source_sample_lengths :
  lengthZ (gzip_sample_bytes unix_lp64 [] 5000 6) = 20
  /\ lengthZ (gzip_sample_bytes unix_lp64 [] 5000 0) = 23.
Proof. split; vm_compute; reflexivity. Qed.

(** ** Round trip through a conformant decoder *)

Lemma gunzip_checks_isize (inflate : list byte -> option (list byte))
      (gz data : list byte) :
  gunzip inflate gz = Some data ->
  le32_decode (dropZ 4 (dropZ (lengthZ gz - 8) gz)) = lengthZ data mod 2 ^ 32.
Proof.
  unfold gunzip.
  destruct (lengthZ gz <? 18); [discriminate|].
  destruct (takeZ 4 gz) as [|id1 [|id2 [|cm [|flg [|x l]]]]]; try discriminate.
  destruct (_ && _ && _ && _); [|discriminate].
  destruct (inflate _) as [d|]; [|discriminate].
  destruct (le32_decode (takeZ 4 _) =? crc32_of d); [|discriminate].
  destruct (Z.eqb_spec (le32_decode (dropZ 4 (dropZ (lengthZ gz - 8) gz)))
                       (lengthZ d mod 2 ^ 32)) as [E|E]; [|discriminate].
  cbn [andb]. intros H; injection H as <-. exact E.
Qed.

(** C3.  The round trip fails for gzip whenever the source has an odd
    length: the size field of the footer is then not the length of the
    data (see C1), so no decoder that checks ISIZE as RFC 1952 requires
    returns the source bytes from the compressed file. *)
Theorem gzip_roundtrip_fails_for_odd_length
        (p : platform) (api : zlib_api) (e : env) (fuel : nat)
        (w w' : world) (f sdir ddir : string) (lvl : Z)
        (src : file) (out : list byte) :
  known_data_model p ->
  fileCompress p api e fuel w f sdir ddir GZIP_ARCHIVE lvl = Some (Z_OK, w') ->
  fs w (calculateFilenameWithPath p sdir f) = Some src ->
  dest_bytes p w' f ddir = Some out ->
  Z.odd (lengthZ (f_bytes src)) = true ->
  forall inflate, gunzip inflate out <> Some (f_bytes src).
Proof.
  intros Hp Hrun Hsrc Hout Hodd inflate Hgz.
  cbn [fileCompress] in Hrun.
  destruct (compressGzipFile_ok_layout p api e _ _ _ _ _ _ _ Hrun)
    as (src' & payload & crc & Hsrc' & Hdest & _).
  assert (src' = src) by congruence. subst src'.
  set (hdr := gzip_header p _) in Hdest.
  set (m := Z.land (lengthZ (f_bytes src)) (LONG_MAX p - 1)) in Hdest.
  assert (out = hdr ++ payload ++ le32 crc ++ le32 m) by congruence. subst out.
  apply gunzip_checks_isize in Hgz.
  replace (hdr ++ payload ++ le32 crc ++ le32 m)
    with ((hdr ++ payload) ++ le32 crc ++ le32 m) in Hgz
    by (rewrite <- app_assoc; reflexivity).
  replace (lengthZ ((hdr ++ payload) ++ le32 crc ++ le32 m) - 8)
    with (lengthZ (hdr ++ payload)) in Hgz.
  2:{ rewrite (lengthZ_app (hdr ++ payload)), (lengthZ_app (le32 crc)).
      change (lengthZ (le32 crc)) with 4. change (lengthZ (le32 m)) with 4. lia. }
  rewrite dropZ_app_exact in Hgz.
  change 4 with (lengthZ (le32 crc)) in Hgz at 1.
  rewrite dropZ_app_exact, le32_decode_le32 in Hgz.
  pose proof (masked_size_is_even p (lengthZ (f_bytes src)) Hp) as Heven.
  fold m in Heven. rewrite Hgz, odd_mod_2_32, Hodd in Heven. discriminate.
Qed.

Lemma gzip_roundtrip_fails_for_odd_length_witness :
  known_data_model unix_lp64
  /\ Z.odd (lengthZ [x61]) = true
  /\ dest_bytes unix_lp64 (world_after (gzip_sample unix_lp64 [x61] 5000 6)) "f" "o"
     = Some (gzip_sample_bytes unix_lp64 [x61] 5000 6)
  /\ gunzip (fun _ => Some [x61]) (gzip_sample_bytes unix_lp64 [x61] 5000 6)
     <> Some [x61].
Proof.
  assert (Hrun : fileCompress unix_lp64 RefCodec.api quiet_env 5
                   (one_file "d/f" [x61] 5000) "f" "d" "o" GZIP_ARCHIVE 6
                 = Some (Z_OK, world_after (gzip_sample unix_lp64 [x61] 5000 6)))
    by (vm_compute; reflexivity).
  assert (Hout : dest_bytes unix_lp64
                   (world_after (gzip_sample unix_lp64 [x61] 5000 6)) "f" "o"
                 = Some (gzip_sample_bytes unix_lp64 [x61] 5000 6))
    by (vm_compute; reflexivity).
  split; [right; reflexivity|]. split; [reflexivity|]. split; [exact Hout|].
  exact (gzip_roundtrip_fails_for_odd_length
           unix_lp64 RefCodec.api quiet_env 5 _ _ "f" "d" "o" 6
           (mkFile [x61] 5000) _
           (or_intror eq_refl) Hrun eq_refl Hout eq_refl (fun _ => Some [x61])).
Defined.

(** The decoder accepts the destination of a source of even length: with
    an inflater that returns the source, both footer checks pass. *)
Example gunzip_accepts_even_length_sample :
  gunzip (fun _ => Some [x61; x62]) (gzip_sample_bytes unix_lp64 [x61; x62] 5000 6)
  = Some [x61; x62].
Proof. vm_compute. reflexivity. Qed.

(** ** The gzip header *)

Lemma byte_of_Z_mod (z : Z) : byte_of_Z (z mod 256) = byte_of_Z z.
Proof. unfold byte_of_Z. rewrite Z.mod_mod by lia. reflexivity. Qed.

Lemma le32_explicit (v : Z) :
  le32 v = [byte_of_Z v; byte_of_Z (v / 2 ^ 8); byte_of_Z (v / 2 ^ 16);
            byte_of_Z (v / 2 ^ 24)].
Proof.
  unfold le32. rewrite !getByte_div by lia. rewrite !byte_of_Z_mod.
  change (2 ^ (8 * 0)) with 1. rewrite Z.div_1_r. reflexivity.
Qed.

(** C6.  [writeGzipHeader] appends exactly the ten bytes 1F 8B 08 00, the
    four bytes of [mtime] with the least significant first, 00, and the
    OS byte of the platform (0 on Windows, 3 elsewhere).  Every run of
    [compressGzipFile] that opened its two files wrote this header first,
    with [mtime] the source's modification time in milliseconds divided
    by 1000 and reduced to 32 bits; whatever else the destination holds
    follows it. *)
Theorem gzip_header_layout
        (p : platform) (api : zlib_api) (e : env) (fuel : nat)
        (w w' : world) (f sdir ddir : string) (lvl r : Z) :
  compressGzipFile p api e fuel w f sdir ddir lvl = Some (r, w') ->
  r <> E_FILE_NOT_OPEN ->
  (forall pFile mtime,
      writeGzipHeader p pFile mtime
      = (0, pFile ++ [x1f; x8b; x08; x00]
                  ++ [byte_of_Z mtime; byte_of_Z (mtime / 2 ^ 8);
                      byte_of_Z (mtime / 2 ^ 16); byte_of_Z (mtime / 2 ^ 24)]
                  ++ [x00; if WIN32 p then x00 else x03])
      /\ le32_decode [byte_of_Z mtime; byte_of_Z (mtime / 2 ^ 8);
                      byte_of_Z (mtime / 2 ^ 16); byte_of_Z (mtime / 2 ^ 24)]
         = mtime mod 2 ^ 32)
  /\ exists src rest,
      fs w (calculateFilenameWithPath p sdir f) = Some src
      /\ dest_bytes p w' f ddir
         = Some (snd (writeGzipHeader p []
                        (Z.quot (f_lastModified src) 1000 mod 2 ^ 32))
                   ++ rest).
Proof.
  intros Hrun Hr. split.
  - intros pFile mtime. rewrite writeGzipHeader_bytes. unfold gzip_header.
    rewrite <- le32_explicit. split; [reflexivity|apply le32_decode_le32].
  - destruct (compressGzipFile_header_first p api e _ _ _ _ _ _ _ _ Hrun Hr)
      as (src & rest & Hsrc & Hdest).
    exists src, rest. split; [exact Hsrc|].
    rewrite writeGzipHeader_bytes. exact Hdest.
Qed.

Lemma gzip_header_layout_witness :
  gzip_sample unix_lp64 [x61] 1234567890123 6
  = Some (Z_OK, world_after (gzip_sample unix_lp64 [x61] 1234567890123 6))
  /\ Z_OK <> E_FILE_NOT_OPEN
  /\ (forall pFile mtime,
         writeGzipHeader unix_lp64 pFile mtime
         = (0, pFile ++ [x1f; x8b; x08; x00]
                     ++ [byte_of_Z mtime; byte_of_Z (mtime / 2 ^ 8);
                         byte_of_Z (mtime / 2 ^ 16); byte_of_Z (mtime / 2 ^ 24)]
                     ++ [x00; if WIN32 unix_lp64 then x00 else x03])
         /\ le32_decode [byte_of_Z mtime; byte_of_Z (mtime / 2 ^ 8);
                         byte_of_Z (mtime / 2 ^ 16); byte_of_Z (mtime / 2 ^ 24)]
            = mtime mod 2 ^ 32)
  /\ exists src rest,
      fs (one_file "d/f" [x61] 1234567890123)
         (calculateFilenameWithPath unix_lp64 "d" "f") = Some src
      /\ dest_bytes unix_lp64
           (world_after (gzip_sample unix_lp64 [x61] 1234567890123 6)) "f" "o"
         = Some (snd (writeGzipHeader unix_lp64 []
                        (Z.quot (f_lastModified src) 1000 mod 2 ^ 32))
                   ++ rest).
Proof.
  assert (Hrun : gzip_sample unix_lp64 [x61] 1234567890123 6
                 = Some (Z_OK,
                         world_after (gzip_sample unix_lp64 [x61] 1234567890123 6)))
    by (vm_compute; reflexivity).
  assert (Hr : Z_OK <> E_FILE_NOT_OPEN) by discriminate.
  split; [exact Hrun|]. split; [exact Hr|].
  exact (gzip_header_layout unix_lp64 RefCodec.api quiet_env 5 _ _ "f" "d" "o" 6
           Z_OK Hrun Hr).
Defined.

(** The header of a file last modified 1234567890.123 s after the epoch. *)
Example gzip_header_sample :
  writeGzipHeader unix_lp64 [] (to_quint32 (Z.quot 1234567890123 1000))
  = (0, [x1f; x8b; x08; x00; xd2; x02; x96; x49; x00; x03]).
Proof. vm_compute. reflexivity. Qed.

(** ** ZIP part: return codes and the archive handle *)

Section ZipProofs.

Variable p : platform.
Variable e : env.

Lemma opened_app (a b : list zip_call) : opened (a ++ b) = (opened a + opened b)%nat.
Proof. unfold opened. rewrite filter_app, length_app. reflexivity. Qed.

Lemma closed_app (a b : list zip_call) : closed (a ++ b) = (closed a + closed b)%nat.
Proof. unfold closed. rewrite filter_app, length_app. reflexivity. Qed.

(** The extraction loop neither opens nor closes an archive. *)
Lemma extract_entries_log (destDir : string) (entries : list zip_entry) :
  forall (i : nat) (w : world),
  exists calls,
    zip_log (snd (extract_entries p destDir i entries w)) = zip_log w ++ calls
    /\ opened calls = 0%nat /\ closed calls = 0%nat.
Proof.
  induction entries as [|en rest IH]; intros i w; cbn [extract_entries].
  - exists []. rewrite app_nil_r. auto.
  - destruct (file_stat_ok en); cbn [negb].
    + destruct (is_directory en).
      * destruct (IH (S i) (log (log w (mz_zip_reader_file_stat i true))
                                (mz_zip_reader_is_file_a_directory i true)))
          as (calls & Hlog & Ho & Hc).
        eexists. split; [rewrite Hlog; cbn [log zip_log];
                         rewrite <- !app_assoc; reflexivity|].
        cbn [app]. split; [exact Ho|exact Hc].
      * destruct (extract_ok en); cbn [negb].
        -- match goal with
           | |- context [extract_entries p destDir (S i) rest ?w0] =>
               destruct (IH (S i) w0) as (calls & Hlog & Ho & Hc)
           end.
           eexists. split; [rewrite Hlog; cbn [log zip_log];
                            rewrite <- !app_assoc; reflexivity|].
           cbn [app]. split; [exact Ho|exact Hc].
        -- eexists. split; [cbn [snd log zip_log];
                            rewrite <- !app_assoc; reflexivity|].
           split; reflexivity.
    + destruct (IH (S i) (log w (mz_zip_reader_file_stat i false)))
        as (calls & Hlog & Ho & Hc).
      eexists. split; [rewrite Hlog; cbn [log zip_log];
                       rewrite <- !app_assoc; reflexivity|].
      cbn [app]. split; [exact Ho|exact Hc].
Qed.

Lemma extract_entries_code (destDir : string) (entries : list zip_entry) :
  forall (i : nat) (w : world),
    fst (extract_entries p destDir i entries w)
    = if existsb extraction_fails entries then Some EXIT_FAILURE else None.
Proof.
  induction entries as [|en rest IH]; intros i w; cbn [extract_entries existsb];
    [reflexivity|].
  unfold extraction_fails at 1.
  destruct (file_stat_ok en); cbn [negb andb orb]; [|apply IH].
  destruct (is_directory en); cbn [negb andb orb]; [apply IH|].
  destruct (extract_ok en); cbn [negb andb orb]; [apply IH|reflexivity].
Qed.

Lemma uncompressZipFile_failure (w : world) (filename destDir : string) :
  reader_init_file_ok e filename = false
  \/ existsb extraction_fails (reader_entries e filename) = true ->
  fst (uncompressZipFile p e w filename destDir) = EXIT_FAILURE.
Proof.
  unfold uncompressZipFile.
  destruct (reader_init_file_ok e filename); cbn [negb]; [|reflexivity].
  intros [H|H]; [discriminate H|].
  destruct (reader_entries e filename) as [|en rest] eqn:Hen; [discriminate H|].
  cbn [List.length Nat.eqb].
  match goal with
  | |- context [extract_entries p destDir 0 (en :: rest) ?w0] =>
      pose proof (extract_entries_code destDir (en :: rest) 0 w0) as Hcode;
      destruct (extract_entries p destDir 0 (en :: rest) w0) as [[c|] w1]
  end; rewrite H in Hcode; cbn [fst] in Hcode; [|discriminate Hcode].
  injection Hcode as ->. reflexivity.
Qed.

Lemma uncompressZipFile_leak (w : world) (filename destDir : string) :
  reader_init_file_ok e filename = true ->
  existsb extraction_fails (reader_entries e filename) = true ->
  exists calls,
    zip_log (snd (uncompressZipFile p e w filename destDir)) = zip_log w ++ calls
    /\ opened calls = 1%nat /\ closed calls = 0%nat.
Proof.
  intros Hinit H. unfold uncompressZipFile. rewrite Hinit. cbn [negb].
  destruct (reader_entries e filename) as [|en rest] eqn:Hen; [discriminate H|].
  cbn [List.length Nat.eqb].
  match goal with
  | |- context [extract_entries p destDir 0 (en :: rest) ?w0] =>
      pose proof (extract_entries_code destDir (en :: rest) 0 w0) as Hcode;
      pose proof (extract_entries_log destDir (en :: rest) 0 w0)
        as (calls & Hlog & Ho & Hc);
      destruct (extract_entries p destDir 0 (en :: rest) w0) as [[c|] w1]
  end; rewrite H in Hcode; cbn [fst] in Hcode; [|discriminate Hcode].
  cbn [snd] in *. eexists. split.
  - rewrite Hlog. cbn [log zip_log]. rewrite <- !app_assoc. reflexivity.
  - rewrite !opened_app, !closed_app, Ho, Hc. split; reflexivity.
Qed.

Lemma uncompressZipFile_success (w : world) (filename destDir : string) :
  fst (uncompressZipFile p e w filename destDir) = 0 ->
  exists calls,
    zip_log (snd (uncompressZipFile p e w filename destDir)) = zip_log w ++ calls
    /\ opened calls = 1%nat /\ closed calls = 1%nat.
Proof.
  unfold uncompressZipFile.
  destruct (reader_init_file_ok e filename); cbn [negb]; [|discriminate].
  destruct (reader_entries e filename) as [|en rest] eqn:Hen.
  - intros _. cbn [List.length Nat.eqb snd log zip_log].
    eexists. split; [rewrite <- !app_assoc; reflexivity|]. split; reflexivity.
  - cbn [List.length Nat.eqb].
    match goal with
    | |- context [extract_entries p destDir 0 (en :: rest) ?w0] =>
        pose proof (extract_entries_code destDir (en :: rest) 0 w0) as Hcode;
        pose proof (extract_entries_log destDir (en :: rest) 0 w0)
          as (calls & Hlog & Ho & Hc);
        destruct (extract_entries p destDir 0 (en :: rest) w0) as [[c|] w1]
    end; cbn [fst snd] in *.
    + destruct (existsb extraction_fails (en :: rest)); [|discriminate Hcode].
      injection Hcode as ->. intros H0. discriminate H0.
    + intros _. eexists. split.
      * cbn [log zip_log]. rewrite Hlog. cbn [log zip_log].
        rewrite <- !app_assoc. reflexivity.
      * rewrite !opened_app, !closed_app, Ho, Hc. split; reflexivity.
Qed.

(** What [compressZipFile] does once the source exists, by the answers
    of the library. *)
Lemma compressZipFile_run (w : world) (f sdir ddir : string) (lvl : Z) :
  QFile_exists w (calculateFilenameWithPath p sdir f) = true ->
  compressZipFile p e w f sdir ddir lvl
  = (writer_code p e f sdir ddir,
     mkWorld (fs w) (zip_log w ++ writer_calls p e f sdir ddir lvl)).
Proof.
  intros Hex. unfold compressZipFile, writer_code, writer_calls.
  rewrite Hex. cbn [negb].
  destruct (writer_init_file_ok e _); cbn [negb andb];
    [|reflexivity].
  destruct (writer_add_file_ok e _ _); cbn [negb andb];
    [|unfold log; cbn [fs zip_log app]; rewrite <- ?app_assoc; reflexivity].
  destruct (writer_finalize_archive_ok e); cbn [negb andb];
    [|unfold log; cbn [fs zip_log app]; rewrite <- ?app_assoc; reflexivity].
  destruct (writer_end_ok e); cbn [negb andb];
    unfold log; cbn [fs zip_log app]; rewrite <- ?app_assoc; reflexivity.
Qed.

End ZipProofs.

(** C4.  A failure reported by the archive library, at any of the places
    the specification lists (archive open, add, finalize, close, entry
    extraction), makes [compressZipFile] and [uncompressZipFile]
    return [EXIT_FAILURE], which is 1: not the code -3 of [E_MINIZ_ERROR] and
    not a negative number.  (The gzip path returns [E_MINIZ_ERROR] for
    its library failures.) *)
Theorem zip_library_failure_returns_EXIT_FAILURE
        (p : platform) (e : env) (w : world) :
  (forall f sdir ddir lvl,
      let name := getCompressedFilename f ZIP_ARCHIVE in
      let dest := calculateFilenameWithPath p ddir name in
      let src := calculateFilenameWithPath p sdir f in
      QFile_exists w src = true ->
      writer_init_file_ok e dest = false
      \/ writer_add_file_ok e name src = false
      \/ writer_finalize_archive_ok e = false
      \/ writer_end_ok e = false ->
      fst (compressZipFile p e w f sdir ddir lvl) = EXIT_FAILURE)
  /\ (forall filename destDir,
         reader_init_file_ok e filename = false
         \/ existsb extraction_fails (reader_entries e filename) = true ->
         fst (uncompressZipFile p e w filename destDir) = EXIT_FAILURE)
  /\ EXIT_FAILURE = 1
  /\ EXIT_FAILURE <> E_MINIZ_ERROR
  /\ fst (compressZipFile unix_lp64 (zip_env false true true true true [])
            (one_file "d/f" [x61] 0) "f" "d" "o" 6) = 1
  /\ fst (uncompressZipFile unix_lp64 (zip_env true true true true false [])
            (one_file "d/f" [x61] 0) "o/f.zip" "out") = 1.
Proof.
  split; [|split; [|repeat split; try reflexivity; discriminate]].
  - intros f sdir ddir lvl name dest src Hex Hfail.
    rewrite (compressZipFile_run p e w f sdir ddir lvl Hex). cbn [fst].
    unfold writer_code. fold name. fold dest. fold src.
    destruct Hfail as [-> | [-> | [-> | ->]]];
      rewrite ?andb_false_r; reflexivity.
  - intros filename destDir. apply uncompressZipFile_failure.
Qed.

(** C7.  The archive handle is not closed on every path.  When the
    archive was opened and adding the file or finalizing fails,
    [compressZipFile] returns without calling [mz_zip_writer_end]; when
    an extraction fails, [uncompressZipFile] returns without calling
    [mz_zip_reader_end].  The handle is closed exactly once on the paths
    that return 0. *)
Theorem zip_handle_left_open_after_failure
        (p : platform) (e : env) (w : world) :
  (forall f sdir ddir lvl,
      let name := getCompressedFilename f ZIP_ARCHIVE in
      let dest := calculateFilenameWithPath p ddir name in
      let src := calculateFilenameWithPath p sdir f in
      QFile_exists w src = true ->
      writer_init_file_ok e dest = true ->
      writer_add_file_ok e name src = false
      \/ writer_finalize_archive_ok e = false ->
      exists calls,
        zip_log (snd (compressZipFile p e w f sdir ddir lvl)) = zip_log w ++ calls
        /\ opened calls = 1%nat /\ closed calls = 0%nat)
  /\ (forall filename destDir,
         reader_init_file_ok e filename = true ->
         existsb extraction_fails (reader_entries e filename) = true ->
         exists calls,
           zip_log (snd (uncompressZipFile p e w filename destDir))
           = zip_log w ++ calls
           /\ opened calls = 1%nat /\ closed calls = 0%nat)
  /\ (forall f sdir ddir lvl,
         fst (compressZipFile p e w f sdir ddir lvl) = 0 ->
         exists calls,
           zip_log (snd (compressZipFile p e w f sdir ddir lvl))
           = zip_log w ++ calls
           /\ opened calls = 1%nat /\ closed calls = 1%nat)
  /\ (forall filename destDir,
         fst (uncompressZipFile p e w filename destDir) = 0 ->
         exists calls,
           zip_log (snd (uncompressZipFile p e w filename destDir))
           = zip_log w ++ calls
           /\ opened calls = 1%nat /\ closed calls = 1%nat)
  /\ zip_log (snd (compressZipFile unix_lp64 (zip_env true false true true true [])
                     (one_file "d/f" [x61] 0) "f" "d" "o" 6))
     = [mz_zip_writer_init_file "o/f.zip" true;
        mz_zip_writer_add_file "f.zip" "d/f" s_pComment 6 false].
Proof.
  split; [|split; [|split; [|split; [|reflexivity]]]].
  - intros f sdir ddir lvl name dest src Hex Hinit Hfail.
    rewrite (compressZipFile_run p e w f sdir ddir lvl Hex). cbn [snd zip_log].
    eexists. split; [reflexivity|].
    unfold writer_calls. fold name. fold dest. fold src. rewrite Hinit.
    destruct Hfail as [-> | Hz]; [split; reflexivity|].
    destruct (writer_add_file_ok e name src); [|split; reflexivity].
    rewrite Hz. split; reflexivity.
  - intros filename destDir. apply uncompressZipFile_leak.
  - intros f sdir ddir lvl.
    destruct (QFile_exists w (calculateFilenameWithPath p sdir f)) eqn:Hex.
    + rewrite (compressZipFile_run p e w f sdir ddir lvl Hex). cbn [fst snd zip_log].
      unfold writer_code, writer_calls.
      destruct (writer_init_file_ok e _); cbn [andb]; [|discriminate].
      destruct (writer_add_file_ok e _ _); cbn [andb]; [|discriminate].
      destruct (writer_finalize_archive_ok e); cbn [andb]; [|discriminate].
      destruct (writer_end_ok e); [|discriminate].
      intros _. eexists. split; [reflexivity|]. split; reflexivity.
    + unfold compressZipFile. rewrite Hex. cbn [negb fst]. discriminate.
  - intros filename destDir. apply uncompressZipFile_success.
Qed.

(** C10.  [fileCompress] with NO_COMPRESSION takes the branch of
    ZIP_ARCHIVE: both are the call of [compressZipFile], also through the
    overload without a destination.  The source is not passed through:
    when it exists, the archive library is asked to create the archive at
    the destination under the sanitized name with ".zip", and when the
    library succeeds the call returns 0 after init, add, finalize and
    end. *)
Theorem fileCompress_NO_COMPRESSION_is_zip
        (p : platform) (api : zlib_api) (e : env) (fuel : nat) (w : world)
        (f sdir ddir : string) (lvl : Z) :
  let name := (sanitize_spec f ++ ".zip")%string in
  let dest := calculateFilenameWithPath p ddir name in
  let src := calculateFilenameWithPath p sdir f in
  fileCompress p api e fuel w f sdir ddir NO_COMPRESSION lvl
  = fileCompress p api e fuel w f sdir ddir ZIP_ARCHIVE lvl
  /\ fileCompress p api e fuel w f sdir ddir NO_COMPRESSION lvl
     = Some (compressZipFile p e w f sdir ddir lvl)
  /\ fileCompress_cwd p api e fuel w f sdir NO_COMPRESSION lvl
     = Some (compressZipFile p e w f sdir (currentPath e) lvl)
  /\ (QFile_exists w src = true ->
      exists rest,
        zip_log (snd (compressZipFile p e w f sdir ddir lvl))
        = zip_log w
            ++ mz_zip_writer_init_file dest (writer_init_file_ok e dest) :: rest)
  /\ (QFile_exists w src = true ->
      writer_init_file_ok e dest = true ->
      writer_add_file_ok e name src = true ->
      writer_finalize_archive_ok e = true ->
      writer_end_ok e = true ->
      compressZipFile p e w f sdir ddir lvl
      = (0, mkWorld (fs w)
              (zip_log w
                 ++ [mz_zip_writer_init_file dest true;
                     mz_zip_writer_add_file name src s_pComment lvl true;
                     mz_zip_writer_finalize_archive true;
                     mz_zip_writer_end true]))).
Proof.
  intros name dest src.
  assert (Hname : getCompressedFilename f ZIP_ARCHIVE = name)
    by (unfold name; cbn [getCompressedFilename];
        rewrite replace_all_is_sanitize; reflexivity).
  split; [reflexivity|]. split; [reflexivity|]. split; [reflexivity|]. split.
  - intros Hex. rewrite (compressZipFile_run p e w f sdir ddir lvl Hex).
    cbn [snd zip_log]. unfold writer_calls. rewrite Hname. fold dest.
    eexists. reflexivity.
  - intros Hex Hi Ha Hz He.
    rewrite (compressZipFile_run p e w f sdir ddir lvl Hex).
    unfold writer_code, writer_calls. rewrite Hname. fold dest. fold src.
    rewrite Hi, Ha, Hz, He. reflexivity.
Qed.

(** NO_COMPRESSION on a sample: the archive "o/f.zip" is written. *)
Example fileCompress_NO_COMPRESSION_sample :
  option_map (fun r => (fst r, zip_log (snd r)))
    (fileCompress unix_lp64 RefCodec.api quiet_env 0 (one_file "d/f" [x61] 0)
                  "f" "d" "o" NO_COMPRESSION 6)
  = Some (0, [mz_zip_writer_init_file "o/f.zip" true;
              mz_zip_writer_add_file "f.zip" "d/f" s_pComment 6 true;
              mz_zip_writer_finalize_archive true;
              mz_zip_writer_end true]).
Proof. reflexivity. Qed.

(** ** Fuel *)

Section Fuel.

Variable p : platform.
Variable api : zlib_api.
Variable e : env.

(** A loop that has ended does not change with more fuel. *)
Lemma reading_loop_more_fuel (fuel k : nat) (s : loop_state api) (x : loop_exit api) :
  reading_loop api e fuel s = Some x ->
  reading_loop api e (fuel + k) s = Some x.
Proof.
  revert s; induction fuel as [|fuel IH]; intros s; [discriminate|].
  cbn [reading_loop Nat.add].
  destruct (refill api e s) as [s1|]; [|auto].
  destruct (compress_step api s1) as [status s2].
  destruct (drain api e status s2) as [s3|]; [|auto].
  destruct (status =? Z_STREAM_END); [auto|].
  destruct (negb (status =? Z_OK)); [auto|].
  apply IH.
Qed.

Lemma compressGzipFile_more_fuel
      (fuel k : nat) (w : world) (f sdir ddir : string) (lvl : Z)
      (r : Z * world) :
  compressGzipFile p api e fuel w f sdir ddir lvl = Some r ->
  compressGzipFile p api e (fuel + k) w f sdir ddir lvl = Some r.
Proof.
  unfold compressGzipFile.
  destruct (fs w _) as [src|]; [|auto].
  destruct (negb _); [auto|].
  destruct (deflateInit2 api lvl _ _ _ _) as [init c].
  destruct (negb (init =? Z_OK)); [auto|].
  destruct (reading_loop api e fuel _) as [x|] eqn:Hloop; [|discriminate].
  rewrite (reading_loop_more_fuel fuel k _ x Hloop). auto.
Qed.

End Fuel.

(** ** The reference compressor always finishes *)

Section RefCodecTotal.

Variable e : env.
Hypothesis reads_ok : forall k, read_ok e k = true.
Hypothesis writes_ok : forall k, write_ok e k = true.

Lemma lengthZ_takeZ_bound (n : Z) (l : list byte) :
  0 <= n -> lengthZ (takeZ n l) <= n.
Proof.
  revert n; induction l as [|x l IH]; intros n Hn; cbn [takeZ].
  - unfold lengthZ; simpl; lia.
  - destruct (Z.ltb_spec 0 n).
    + rewrite lengthZ_cons. specialize (IH (n - 1)). lia.
    + unfold lengthZ; simpl; lia.
Qed.

Lemma dropZ_all (n : Z) (l : list byte) : lengthZ l <= n -> dropZ n l = [].
Proof.
  intros H. pose proof (takeZ_dropZ n l) as E.
  rewrite (takeZ_all n l H) in E.
  apply (app_inv_head l). rewrite app_nil_r. exact E.
Qed.

Lemma lengthZ_dropZ_min (n : Z) (l : list byte) :
  0 <= n -> lengthZ (dropZ n l) = lengthZ l - Z.min n (lengthZ l).
Proof.
  intros Hn. destruct (Z.le_ge_cases n (lengthZ l)).
  - rewrite lengthZ_dropZ by lia. lia.
  - rewrite dropZ_all by lia. change (lengthZ []) with 0. lia.
Qed.

Lemma lengthZ_takeZ_min (n : Z) (l : list byte) :
  0 <= n -> lengthZ (takeZ n l) = Z.min n (lengthZ l).
Proof.
  intros Hn. destruct (Z.le_ge_cases n (lengthZ l)).
  - rewrite lengthZ_takeZ by lia. lia.
  - rewrite takeZ_all by lia. lia.
Qed.

Lemma final_block_length (lvl : Z) : lengthZ (RefCodec.final_block lvl) <= 5.
Proof.
  unfold RefCodec.final_block. destruct (lvl =? 0); vm_compute; discriminate.
Qed.

Lemma RefCodec_iteration (s : loop_state RefCodec.api) :
  loop_ready s ->
  (exists s', reading_loop RefCodec.api e 1 s = Some (LoopBreak s'))
  \/ (exists s3,
         loop_ready s3
         /\ (forall fuel, reading_loop RefCodec.api e (S fuel) s
                          = reading_loop RefCodec.api e fuel s3)
         /\ ((List.length (ls_fin s3) < List.length (ls_fin s))%nat
             \/ (List.length (ls_fin s3) = List.length (ls_fin s)
                 /\ (pending_weight (ls_codec s3) < pending_weight (ls_codec s))%nat))).
Proof.
  destruct s as [c inb out fin fout rem crc reads writes].
  unfold loop_ready. cbn [ls_in ls_out ls_fin infile_remaining ls_codec].
  intros (-> & Hout & ->).
  cbn [reading_loop]. unfold refill.
  cbn [ls_in ls_out ls_fin ls_fout infile_remaining ls_codec ls_crc ls_reads ls_writes].
  rewrite reads_ok. cbn [negb].
  set (n := Z.min BUF_SIZE (lengthZ fin)).
  set (crc' := mz_crc32 crc _).
  unfold compress_step.
  cbn [ls_in ls_out ls_fin ls_fout infile_remaining ls_codec ls_crc ls_reads ls_writes].
  change (avail_out (mkLoop c (takeZ n fin) out (dropZ n fin) fout
                            (lengthZ fin - n) crc' (S reads) writes))
    with (BUF_SIZE - lengthZ out).
  set (room := BUF_SIZE - lengthZ out).
  set (flush := if lengthZ fin - n =? 0 then Z_FINISH else Z_NO_FLUSH).
  cbn [deflate RefCodec.api]. unfold RefCodec.step.
  set (closing := (flush =? Z_FINISH) && negb (RefCodec.finished c)).
  set (all := RefCodec.pending c ++ _ ++ _).
  cbn [d_status d_consumed d_produced d_codec].
  assert (Hroom : 0 < room) by (unfold room; lia).
  rewrite (dropZ_all (lengthZ (takeZ n fin)) (takeZ n fin)) by lia.
  rewrite (takeZ_all room (takeZ room all))
    by (apply lengthZ_takeZ_bound; lia).
  pose proof (lengthZ_nonneg fin) as Hfin.
  pose proof (lengthZ_nonneg out) as Hout0.
  destruct ((flush =? Z_FINISH) && (lengthZ (dropZ room all) =? 0)) eqn:Hst.
  - left. unfold drain. change (Z_STREAM_END =? Z_STREAM_END) with true.
    cbn [orb ls_writes]. rewrite writes_ok. cbn [negb]. eexists. reflexivity.
  - right. unfold drain. change (Z_OK =? Z_STREAM_END) with false.
    change (Z_OK =? Z_OK) with true. cbn [orb negb].
    set (c' := RefCodec.mkState _ _ _).
    assert (Hmeasure :
              (List.length (dropZ n fin) < List.length fin)%nat
              \/ (List.length (dropZ n fin) = List.length fin
                  /\ (pending_weight c' < pending_weight c)%nat)).
    { destruct (Z.eq_dec (lengthZ fin) 0) as [Hz|Hnz].
      - right. apply lengthZ_nil_inv in Hz. subst fin.
        split; [reflexivity|].
        assert (Hflush : (flush =? Z_FINISH) = true) by reflexivity.
        rewrite Hflush in Hst. cbn [andb] in Hst.
        apply Z.eqb_neq in Hst.
        unfold pending_weight, c'. cbn [RefCodec.pending RefCodec.finished].
        assert (Hall : lengthZ all
                       = lengthZ (RefCodec.pending c)
                         + (if RefCodec.finished c then 0
                            else lengthZ (RefCodec.final_block (RefCodec.level c)))).
        { unfold all, closing. rewrite Hflush. cbn [andb].
          change (takeZ n []) with (@nil byte).
          cbn [List.length RefCodec.stored_blocks app].
          rewrite lengthZ_app. destruct (RefCodec.finished c); reflexivity. }
        pose proof (final_block_length (RefCodec.level c)) as Hfb.
        pose proof (lengthZ_dropZ_min room all ltac:(lia)) as Hrest.
        pose proof (lengthZ_nonneg (dropZ room all)).
        unfold closing. rewrite Hflush. cbn [andb].
        unfold lengthZ in *.
        destruct (RefCodec.finished c); cbn [negb orb]; lia.
      - left. pose proof (lengthZ_dropZ_min n fin) as Hd.
        unfold n, BUF_SIZE in *. unfold lengthZ in *. lia. }
    assert (Hrem : lengthZ fin - n = lengthZ (dropZ n fin)).
    { rewrite lengthZ_dropZ_min by (unfold n, BUF_SIZE; lia).
      unfold n, BUF_SIZE. lia. }
    set (out2 := out ++ takeZ room all).
    assert (Hout2 : lengthZ out2 <= BUF_SIZE).
    { unfold out2. rewrite lengthZ_app.
      pose proof (lengthZ_takeZ_bound room all ltac:(lia)). unfold room in *. lia. }
    unfold avail_out. cbn [ls_out].
    destruct (Z.eqb_spec (BUF_SIZE - lengthZ out2) 0) as [Hfull|Hnot].
    + cbn [ls_writes]. rewrite writes_ok. cbn [negb].
      eexists. split; [|split; [intros fuel; reflexivity|exact Hmeasure]].
      unfold loop_ready. cbn. split; [reflexivity|]. split; [reflexivity|exact Hrem].
    + eexists. split; [|split; [intros fuel; reflexivity|exact Hmeasure]].
      unfold loop_ready. cbn [ls_in ls_out ls_fin infile_remaining].
      split; [reflexivity|]. split; [lia|exact Hrem].
Qed.

(** The loop with the reference compressor, from the top of any
    iteration, is left by [break] after finitely many rounds. *)
Lemma RefCodec_loop_terminates (s : loop_state RefCodec.api) :
  loop_ready s ->
  exists fuel s', reading_loop RefCodec.api e fuel s = Some (LoopBreak s').
Proof.
  remember (List.length (ls_fin s)) as m eqn:Hm.
  revert s Hm. induction m as [m IHm] using lt_wf_ind. intros s Hm.
  remember (pending_weight (ls_codec s)) as k eqn:Hk.
  revert s Hm Hk. induction k as [k IHk] using lt_wf_ind. intros s Hm Hk Hready.
  destruct (RefCodec_iteration s Hready) as [[s' H1] | (s3 & Hready3 & Hstep & Hless)].
  - exists 1%nat, s'. exact H1.
  - destruct Hless as [Hlt | [Heq Hlt]].
    + destruct (IHm (List.length (ls_fin s3)) ltac:(lia) s3 eq_refl Hready3)
        as (fuel & s' & Hrun).
      exists (S fuel), s'. rewrite Hstep. exact Hrun.
    + destruct (IHk (pending_weight (ls_codec s3)) ltac:(lia) s3 ltac:(lia)
                    eq_refl Hready3) as (fuel & s' & Hrun).
      exists (S fuel), s'. rewrite Hstep. exact Hrun.
Qed.

(** With the reference compressor and no I/O failure, [compressGzipFile]
    returns [Z_OK] for every source that exists. *)
Theorem RefCodec_compressGzipFile_total
        (p : platform) (w : world) (f sdir ddir : string) (lvl : Z) :
  QFile_exists w (calculateFilenameWithPath p sdir f) = true ->
  (forall path, open_read_ok e path = true) ->
  (forall path, open_write_ok e path = true) ->
  exists fuel w',
    compressGzipFile p RefCodec.api e fuel w f sdir ddir lvl = Some (Z_OK, w').
Proof.
  intros Hex Hopr Hopw. unfold QFile_exists in Hex.
  unfold compressGzipFile.
  destruct (fs w (calculateFilenameWithPath p sdir f)) as [src|]; [|discriminate].
  rewrite Hopr, Hopw. cbn [andb negb].
  cbn [deflateInit2 RefCodec.api]. unfold RefCodec.init.
  change (negb (Z_OK =? Z_OK)) with false. cbv iota.
  match goal with
  | |- context [reading_loop _ _ _ ?s0] =>
      destruct (RefCodec_loop_terminates s0) as (fuel & s' & Hrun)
  end.
  { unfold loop_ready. cbn. split; [reflexivity|]. split; [reflexivity|reflexivity]. }
  exists fuel. rewrite Hrun.
  cbn [deflateEnd RefCodec.api]. unfold RefCodec.finish.
  change (negb (Z_OK =? Z_OK)) with false. cbv iota.
  eexists. reflexivity.
Qed.

End RefCodecTotal.

(** * Further properties of the code *)

(** ** Names and paths *)

Lemma sanitize_spec_idempotent (s : string) :
  sanitize_spec (sanitize_spec s) = sanitize_spec s.
Proof.
  induction s as [|c s IH]; cbn [sanitize_spec]; [reflexivity|].
  rewrite IH. f_equal.
  destruct (is_path_separator c) eqn:E; [reflexivity|]. rewrite E. reflexivity.
Qed.

Lemma sanitize_spec_clean (s : string) :
  contains backslash (sanitize_spec s) = false
  /\ contains slash (sanitize_spec s) = false
  /\ contains colon (sanitize_spec s) = false.
Proof.
  induction s as [|c s (IH1 & IH2 & IH3)]; cbn [sanitize_spec contains];
    [auto|].
  rewrite IH1, IH2, IH3, !orb_false_r.
  unfold is_path_separator.
  destruct (Ascii.eqb c backslash) eqn:E1; cbn [orb]; [repeat split; reflexivity|].
  destruct (Ascii.eqb c slash) eqn:E2; cbn [orb]; [repeat split; reflexivity|].
  destruct (Ascii.eqb c colon) eqn:E3; [repeat split; reflexivity|].
  auto.
Qed.

Lemma sanitize_spec_fixes_clean (s : string) :
  contains backslash s = false -> contains slash s = false ->
  contains colon s = false -> sanitize_spec s = s.
Proof.
  induction s as [|c s IH]; cbn [sanitize_spec contains]; [reflexivity|].
  intros H1 H2 H3.
  apply orb_false_elim in H1, H2, H3.
  destruct H1 as [H1 H1'], H2 as [H2 H2'], H3 as [H3 H3'].
  unfold is_path_separator. rewrite H1, H2, H3. cbn [orb].
  rewrite IH by assumption. reflexivity.
Qed.

(** X1.  The name sanitizer for ZIP entries keeps the length of the name,
    leaves no backslash, slash or colon in it, changes nothing in a name
    that has none of them, and applying it twice is applying it once. *)
Theorem calculateNameCompliantWithZipAlgoMiniZ_clean (s : string) :
  let r := calculateNameCompliantWithZipAlgoMiniZ s in
  String.length r = String.length s
  /\ contains backslash r = false
  /\ contains slash r = false
  /\ contains colon r = false
  /\ calculateNameCompliantWithZipAlgoMiniZ r = r
  /\ (contains backslash s = false -> contains slash s = false ->
      contains colon s = false -> r = s).
Proof.
  cbv zeta. rewrite !replace_all_is_sanitize.
  pose proof (sanitize_spec_clean s) as (H1 & H2 & H3).
  split; [apply sanitize_spec_length|].
  repeat (split; [assumption|]).
  split; [apply sanitize_spec_idempotent|apply sanitize_spec_fixes_clean].
Qed.

Lemma string_length_append (a b : string) :
  String.length (a ++ b) = (String.length a + String.length b)%nat.
Proof. induction a; cbn [append String.length]; [reflexivity|]. rewrite IHa. reflexivity. Qed.

Lemma append_inj_l (t a b : string) : (a ++ t = b ++ t)%string -> a = b.
Proof.
  revert b; induction a as [|c a IH]; intros [|d b] H; cbn [append] in H.
  - reflexivity.
  - apply (f_equal String.length) in H. cbn [String.length] in H.
    rewrite string_length_append in H. lia.
  - apply (f_equal String.length) in H. cbn [String.length] in H.
    rewrite string_length_append in H. lia.
  - injection H as -> H. f_equal. apply IH. exact H.
Qed.

(** X2.  Two names get the same gzip name only if they are the same
    name; they get the same ZIP name exactly when their sanitized forms
    coincide, that is when they differ at most in positions where both
    hold a backslash, slash, colon or underscore.  So two different
    sources, such as "a/b" and "a:b", are sent to the same archive
    name. *)
Theorem getCompressedFilename_collisions (a b : string) :
  (getCompressedFilename a GZIP_ARCHIVE = getCompressedFilename b GZIP_ARCHIVE
   <-> a = b)
  /\ (getCompressedFilename a ZIP_ARCHIVE = getCompressedFilename b ZIP_ARCHIVE
      <-> calculateNameCompliantWithZipAlgoMiniZ a
          = calculateNameCompliantWithZipAlgoMiniZ b)
  /\ (getCompressedFilename a NO_COMPRESSION = getCompressedFilename b NO_COMPRESSION
      <-> a = b)
  /\ getCompressedFilename "a/b" ZIP_ARCHIVE = getCompressedFilename "a:b" ZIP_ARCHIVE.
Proof.
  cbn [getCompressedFilename]. repeat split.
  - apply append_inj_l.
  - intros ->. reflexivity.
  - apply append_inj_l.
  - intros ->. reflexivity.
  - auto.
  - intros ->. reflexivity.
Qed.

Lemma replace_append (x y : ascii) (a b : string) :
  QString.replace x y (a ++ b) = (QString.replace x y a ++ QString.replace x y b)%string.
Proof. induction a; cbn [append QString.replace]; [reflexivity|]. rewrite IHa. reflexivity. Qed.

Lemma replace_absent (x y : ascii) (s : string) :
  contains x s = false -> QString.replace x y s = s.
Proof.
  induction s as [|c s IH]; cbn [contains QString.replace]; [reflexivity|].
  intros H. apply orb_false_elim in H. destruct H as [H1 H2].
  rewrite H1, IH by assumption. reflexivity.
Qed.

Lemma replace_removes (x y : ascii) (s : string) :
  Ascii.eqb y x = false -> contains x (QString.replace x y s) = false.
Proof.
  intros Hxy. induction s as [|c s IH]; cbn [contains QString.replace]; [reflexivity|].
  rewrite IH, orb_false_r.
  destruct (Ascii.eqb c x) eqn:E; [exact Hxy|exact E].
Qed.

Lemma fromNativeSeparators_idempotent (p : platform) (s : string) :
  fromNativeSeparators p (fromNativeSeparators p s) = fromNativeSeparators p s.
Proof.
  unfold fromNativeSeparators. destruct (WIN32 p); [|reflexivity].
  apply replace_absent, replace_removes. reflexivity.
Qed.

Lemma fromNativeSeparators_append_slash (p : platform) (s : string) :
  fromNativeSeparators p (s ++ "/") = (fromNativeSeparators p s ++ "/")%string.
Proof.
  unfold fromNativeSeparators. destruct (WIN32 p); [|reflexivity].
  apply replace_append.
Qed.

(** X3.  Edge cases of [calculateFilenameWithPath]: an empty directory
    gives "/" followed by the name (a path at the root, not a relative
    one); a directory written with or without its one trailing slash
    gives the same path; converting the directory beforehand changes
    nothing; on Windows no backslash is left in the directory part, and
    elsewhere a directory not ending in a slash is joined as
    dir/name with its backslashes kept. *)
Theorem calculateFilenameWithPath_edges (p : platform) (dir name : string) :
  calculateFilenameWithPath p "" name = ("/" ++ name)%string
  /\ calculateFilenameWithPath p (dir ++ "/") name
     = (fromNativeSeparators p dir ++ "/" ++ name)%string
  /\ (QString.endsWith (fromNativeSeparators p dir) "/" = false ->
      calculateFilenameWithPath p dir name
      = calculateFilenameWithPath p (dir ++ "/") name)
  /\ calculateFilenameWithPath p (fromNativeSeparators p dir) name
     = calculateFilenameWithPath p dir name
  /\ (WIN32 p = true -> contains backslash (fromNativeSeparators p dir) = false)
  /\ (WIN32 p = false -> QString.endsWith dir "/" = false ->
      calculateFilenameWithPath p dir name = (dir ++ "/" ++ name)%string).
Proof.
  assert (Happ : forall a b c : string, ((a ++ b) ++ c = a ++ b ++ c)%string).
  { intros a b c. induction a; cbn [append]; [reflexivity|]. rewrite IHa. reflexivity. }
  assert (Hslash : calculateFilenameWithPath p (dir ++ "/") name
                   = (fromNativeSeparators p dir ++ "/" ++ name)%string).
  { unfold calculateFilenameWithPath.
    rewrite fromNativeSeparators_append_slash, endsWith_app_slash.
    cbn [negb]. apply Happ. }
  split.
  { unfold calculateFilenameWithPath, fromNativeSeparators.
    destruct (WIN32 p); reflexivity. }
  split; [exact Hslash|]. split.
  { intros H. rewrite Hslash. unfold calculateFilenameWithPath. rewrite H.
    cbn [negb]. apply Happ. }
  split.
  { unfold calculateFilenameWithPath. rewrite fromNativeSeparators_idempotent.
    reflexivity. }
  split.
  { intros Hw. unfold fromNativeSeparators. rewrite Hw.
    apply replace_removes. reflexivity. }
  intros Hw H. unfold calculateFilenameWithPath, fromNativeSeparators.
  rewrite Hw, H. cbn [negb]. apply Happ.
Qed.

(** ** The frame codec *)

(** X4.  [getByte] always returns a value of one byte.  Its byte number
    is a [quint8], so it counts modulo 256: byte numbers that are 1, 2
    or 3 modulo 256 select bits 8-15, 16-23 and 24-31, and every other
    byte number (0, 4 to 255, and what wraps to these) selects the
    lowest byte, never bits above 31.  The four bytes of a 32-bit value
    rebuild the value. *)
Theorem getByte_selects (v k : Z) :
  0 <= getByte v k <= 255
  /\ getByte v k = getByte v (k mod 256)
  /\ getByte v 1 = (v / 2 ^ 8) mod 256
  /\ getByte v 2 = (v / 2 ^ 16) mod 256
  /\ getByte v 3 = (v / 2 ^ 24) mod 256
  /\ (k mod 256 <> 1 -> k mod 256 <> 2 -> k mod 256 <> 3 ->
      getByte v k = v mod 256)
  /\ getByte v 0 + 2 ^ 8 * getByte v 1 + 2 ^ 16 * getByte v 2
     + 2 ^ 24 * getByte v 3 = v mod 2 ^ 32.
Proof.
  assert (Hdef : forall j, j mod 256 <> 1 -> j mod 256 <> 2 -> j mod 256 <> 3 ->
                           getByte v j = v mod 256).
  { intros j H1 H2 H3. unfold getByte. cbv zeta.
    apply Z.eqb_neq in H1, H2, H3. rewrite H1, H2, H3.
    change 255 with (Z.ones 8). rewrite Z.land_ones by lia.
    rewrite Z.shiftr_0_r. reflexivity. }
  split.
  { unfold getByte. cbv zeta. set (x := Z.shiftr v _).
    change (Z.land x 255) with (Z.land x (Z.ones 8)). rewrite Z.land_ones by lia.
    change (2 ^ 8) with 256.
    pose proof (Z.mod_pos_bound x 256 ltac:(lia)). lia. }
  split.
  { unfold getByte. cbv zeta. rewrite Z.mod_mod by lia. reflexivity. }
  split; [apply (getByte_div v 1); lia|].
  split; [apply (getByte_div v 2); lia|].
  split; [apply (getByte_div v 3); lia|].
  split; [exact (Hdef k)|].
  pose proof (le32_decode_le32 v) as H.
  unfold le32, le32_decode in H. rewrite !Z_of_byte_of_Z in H.
  rewrite <- H.
  assert (Hr : forall j, getByte v j mod 256 = getByte v j).
  { intros j. unfold getByte. cbv zeta. set (x := Z.shiftr v _).
    change (Z.land x 255) with (Z.land x (Z.ones 8)).
    rewrite Z.land_ones by lia. change (2 ^ 8) with 256.
    apply Z.mod_mod. lia. }
  rewrite !Hr. reflexivity.
Qed.

(** A byte number beyond 255 wraps: 257 selects byte 1. *)
Example getByte_wraps : getByte 0x12345678 257 = 0x56.
Proof. reflexivity. Qed.

Lemma takeZ_app_exact (a b : list byte) : takeZ (lengthZ a) (a ++ b) = a.
Proof.
  pose proof (takeZ_dropZ (lengthZ a) (a ++ b)) as H.
  rewrite dropZ_app_exact in H. apply app_inv_tail in H. exact H.
Qed.

(** X5.  [writeGzipFooter] returns 0, keeps what the file already held
    and appends eight bytes: first the checksum, then the size, each
    read back little-endian as the value's low 32 bits. *)
Theorem writeGzipFooter_roundtrip (pFile : list byte) (crc size : Z) :
  let out := snd (writeGzipFooter pFile crc size) in
  fst (writeGzipFooter pFile crc size) = 0
  /\ lengthZ out = lengthZ pFile + 8
  /\ takeZ (lengthZ pFile) out = pFile
  /\ le32_decode (takeZ 4 (dropZ (lengthZ pFile) out)) = crc mod 2 ^ 32
  /\ le32_decode (dropZ 4 (dropZ (lengthZ pFile) out)) = size mod 2 ^ 32.
Proof.
  cbv zeta. rewrite writeGzipFooter_bytes. cbn [fst snd].
  split; [reflexivity|]. split.
  { rewrite !lengthZ_app. change (lengthZ (le32 crc)) with 4.
    change (lengthZ (le32 size)) with 4. lia. }
  split; [apply takeZ_app_exact|].
  rewrite dropZ_app_exact.
  change 4 with (lengthZ (le32 crc)).
  rewrite takeZ_app_exact, dropZ_app_exact, !le32_decode_le32. auto.
Qed.

(** ** The gzip engine: failures and footprint *)

Section GzipEdges.

Variable p : platform.
Variable api : zlib_api.
Variable e : env.

Lemma fs_write_file_other (w : world) (path q : string) (data : list byte) :
  q <> path -> fs (write_file e w path data) q = fs w q.
Proof.
  intros H. unfold write_file, fs_put. cbn [fs].
  apply String.eqb_neq in H. rewrite H. reflexivity.
Qed.

(** X6.  What [compressGzipFile] does when a file cannot be opened.  A
    missing source gives [E_FILE_NOT_OPEN] with nothing touched.  A
    destination that cannot be opened gives [E_FILE_NOT_OPEN] too (never
    [E_FILE_NOT_WRITEABLE]) with nothing touched.  A source that exists
    but cannot be opened, with a destination that can, gives
    [E_FILE_NOT_OPEN] and leaves the destination created or emptied:
    both opens are attempted before the result is tested.  In all three
    cases the compressor is not consulted and no fuel is needed. *)
Theorem compressGzipFile_open_failures
        (fuel : nat) (w : world) (f sdir ddir : string) (lvl : Z) :
  let src := calculateFilenameWithPath p sdir f in
  let dest := calculateFilenameWithPath p ddir (getCompressedFilename f GZIP_ARCHIVE) in
  (fs w src = None ->
   compressGzipFile p api e fuel w f sdir ddir lvl = Some (E_FILE_NOT_OPEN, w))
  /\ (fs w src <> None -> open_write_ok e dest = false ->
      compressGzipFile p api e fuel w f sdir ddir lvl = Some (E_FILE_NOT_OPEN, w))
  /\ (fs w src <> None -> open_read_ok e src = false -> open_write_ok e dest = true ->
      compressGzipFile p api e fuel w f sdir ddir lvl
      = Some (E_FILE_NOT_OPEN, write_file e w dest [])
      /\ dest_bytes p (write_file e w dest []) f ddir = Some []).
Proof.
  intros src dest. unfold compressGzipFile. fold src. fold dest.
  split; [intros ->; reflexivity|]. split.
  - intros Hex Hw. destruct (fs w src); [|contradiction].
    rewrite Hw, andb_false_r. reflexivity.
  - intros Hex Hr Hw. destruct (fs w src); [|contradiction].
    rewrite Hr, Hw. cbn [andb negb]. split; [reflexivity|].
    apply dest_bytes_write_file.
Qed.

Lemma compressGzipFile_cases
      (fuel : nat) (w w' : world) (f sdir ddir : string) (lvl r : Z) :
  compressGzipFile p api e fuel w f sdir ddir lvl = Some (r, w') ->
  (r = Z_OK \/ r = E_FILE_NOT_OPEN \/ r = E_MINIZ_ERROR)
  /\ zip_log w' = zip_log w
  /\ (forall q,
         q <> calculateFilenameWithPath p ddir (getCompressedFilename f GZIP_ARCHIVE) ->
         fs w' q = fs w q).
Proof.
  unfold compressGzipFile.
  set (dest := calculateFilenameWithPath p ddir (getCompressedFilename f GZIP_ARCHIVE)).
  destruct (fs w (calculateFilenameWithPath p sdir f)) as [src|].
  2:{ intros H. apply some_pair_inv in H. destruct H as [<- <-]. auto. }
  set (w0 := if open_write_ok e dest then write_file e w dest [] else w).
  assert (H0 : zip_log w0 = zip_log w
               /\ forall q, q <> dest -> fs w0 q = fs w q).
  { unfold w0. destruct (open_write_ok e dest); [|auto].
    split; [reflexivity|]. intros q Hq. apply fs_write_file_other, Hq. }
  destruct H0 as [Hlog0 Hfs0].
  assert (Hput : forall data,
             zip_log (write_file e w0 dest data) = zip_log w
             /\ forall q, q <> dest -> fs (write_file e w0 dest data) q = fs w q).
  { intros data. split; [exact Hlog0|].
    intros q Hq. rewrite fs_write_file_other by exact Hq. apply Hfs0, Hq. }
  destruct (negb _).
  { intros H. apply some_pair_inv in H. destruct H as [<- <-]. auto. }
  destruct (deflateInit2 api lvl _ _ _ _) as [init c].
  destruct (negb (init =? Z_OK)).
  { intros H. apply some_pair_inv in H. destruct H as [<- <-].
    split; [auto|apply Hput]. }
  destruct (reading_loop api e fuel _) as [[s|s]|]; [| |discriminate].
  - destruct (negb (deflateEnd api (ls_codec s) =? Z_OK));
      intros H; apply some_pair_inv in H; destruct H as [<- <-];
      (split; [auto|apply Hput]).
  - intros H. apply some_pair_inv in H. destruct H as [<- <-].
    split; [auto|apply Hput].
Qed.

(** X7.  Whatever the compressor and the I/O do, a call of
    [compressGzipFile] that returns gives 0, [E_FILE_NOT_OPEN] or
    [E_MINIZ_ERROR] (never [E_FILE_NOT_WRITEABLE], never a positive
    code); it makes no call to the archive library and changes no file
    other than the destination, so a source at another path is intact. *)
Theorem compressGzipFile_footprint
        (fuel : nat) (w w' : world) (f sdir ddir : string) (lvl r : Z) :
  compressGzipFile p api e fuel w f sdir ddir lvl = Some (r, w') ->
  (r = Z_OK \/ r = E_FILE_NOT_OPEN \/ r = E_MINIZ_ERROR)
  /\ r <> E_FILE_NOT_WRITEABLE
  /\ zip_log w' = zip_log w
  /\ (forall q,
         q <> calculateFilenameWithPath p ddir (getCompressedFilename f GZIP_ARCHIVE) ->
         fs w' q = fs w q).
Proof.
  intros H. destruct (compressGzipFile_cases _ _ _ _ _ _ _ _ H) as (Hr & Hlog & Hfs).
  split; [exact Hr|]. split; [|split; assumption].
  destruct Hr as [-> | [-> | ->]]; discriminate.
Qed.

(** X8.  When [deflateInit2] fails after both files were opened, the call
    returns [E_MINIZ_ERROR] and leaves a destination of exactly the ten
    header bytes; no decoder of the gzip format accepts that file. *)
Theorem compressGzipFile_init_failure
        (fuel : nat) (w : world) (f sdir ddir : string) (lvl : Z) (src : file) :
  fs w (calculateFilenameWithPath p sdir f) = Some src ->
  open_read_ok e (calculateFilenameWithPath p sdir f) = true ->
  open_write_ok e (calculateFilenameWithPath p ddir
                     (getCompressedFilename f GZIP_ARCHIVE)) = true ->
  fst (deflateInit2 api lvl MZ_DEFLATED (- MZ_DEFAULT_WINDOW_BITS) 9
                    MZ_DEFAULT_STRATEGY) <> Z_OK ->
  exists w' out,
    compressGzipFile p api e fuel w f sdir ddir lvl = Some (E_MINIZ_ERROR, w')
    /\ dest_bytes p w' f ddir = Some out
    /\ out = gzip_header p (to_quint32 (Z.quot (f_lastModified src) 1000))
    /\ lengthZ out = 10
    /\ forall inflate, gunzip inflate out = None.
Proof.
  intros Hsrc Hr Hw Hinit. unfold compressGzipFile.
  rewrite Hsrc, Hr, Hw. cbn [andb negb].
  rewrite writeGzipHeader_bytes. cbn [snd app].
  destruct (deflateInit2 api lvl _ _ _ _) as [init c]. cbn [fst] in Hinit.
  apply Z.eqb_neq in Hinit. rewrite Hinit. cbn [negb].
  eexists. eexists. split; [reflexivity|].
  rewrite dest_bytes_write_file. split; [reflexivity|].
  split; [reflexivity|]. split; [reflexivity|].
  intros inflate. reflexivity.
Qed.

End GzipEdges.

Lemma compressGzipFile_footprint_witness :
  gzip_sample unix_lp64 [x61] 5000 6
  = Some (Z_OK, world_after (gzip_sample unix_lp64 [x61] 5000 6))
  /\ (Z_OK = Z_OK \/ Z_OK = E_FILE_NOT_OPEN \/ Z_OK = E_MINIZ_ERROR)
  /\ Z_OK <> E_FILE_NOT_WRITEABLE
  /\ zip_log (world_after (gzip_sample unix_lp64 [x61] 5000 6))
     = zip_log (one_file "d/f" [x61] 5000)
  /\ (forall q,
         q <> calculateFilenameWithPath unix_lp64 "o"
                (getCompressedFilename "f" GZIP_ARCHIVE) ->
         fs (world_after (gzip_sample unix_lp64 [x61] 5000 6)) q
         = fs (one_file "d/f" [x61] 5000) q).
Proof.
  assert (Hrun : gzip_sample unix_lp64 [x61] 5000 6
                 = Some (Z_OK, world_after (gzip_sample unix_lp64 [x61] 5000 6)))
    by (vm_compute; reflexivity).
  split; [exact Hrun|].
  exact (compressGzipFile_footprint unix_lp64 RefCodec.api quiet_env 5 _ _
           "f" "d" "o" 6 Z_OK Hrun).
Defined.

Lemma compressGzipFile_init_failure_witness :
  exists w' out,
    compressGzipFile unix_lp64 failing_init_codec quiet_env 0
                     (one_file "d/f" [x61] 5000) "f" "d" "o" 6
    = Some (E_MINIZ_ERROR, w')
    /\ dest_bytes unix_lp64 w' "f" "o" = Some out
    /\ out = gzip_header unix_lp64 (to_quint32 (Z.quot 5000 1000))
    /\ lengthZ out = 10
    /\ forall inflate, gunzip inflate out = None.
Proof.
  refine (compressGzipFile_init_failure unix_lp64 failing_init_codec quiet_env 0
            (one_file "d/f" [x61] 5000) "f" "d" "o" 6 (mkFile [x61] 5000)
            _ _ _ _); try reflexivity.
  vm_compute. discriminate.
Defined.

(** ** The gzip engine: the streaming loop *)

Section GzipStream.

Variable p : platform.
Variable api : zlib_api.
Variable e : env.

Lemma drain_written (status : Z) (s s1 : loop_state api) :
  drain api e status s = Some s1 ->
  ls_fout s1 ++ ls_out s1 = ls_fout s ++ ls_out s
  /\ (status = Z_STREAM_END -> ls_out s1 = []).
Proof.
  unfold drain.
  destruct (Z.eqb_spec status Z_STREAM_END) as [E|E]; cbn [orb].
  - destruct (write_ok e (ls_writes s)); [|discriminate].
    intros H; injection H as <-. cbn [ls_fout ls_out].
    unfold QFile_write. rewrite app_nil_r. auto.
  - destruct (avail_out s =? 0).
    + destruct (write_ok e (ls_writes s)); [|discriminate].
      intros H; injection H as <-. cbn [ls_fout ls_out].
      unfold QFile_write. rewrite app_nil_r. split; [reflexivity|contradiction].
    + intros H; injection H as <-. split; [reflexivity|contradiction].
Qed.

Lemma refill_out (s s1 : loop_state api) :
  refill api e s = Some s1 -> ls_out s1 = ls_out s.
Proof.
  unfold refill. destruct (ls_in s).
  - destruct (read_ok e (ls_reads s)); [|discriminate].
    intros H; injection H as <-. reflexivity.
  - intros H; injection H as <-. reflexivity.
Qed.

(** When the loop is left by [break], the destination has received,
    after what it held before, exactly the bytes [deflate] stored in the
    output buffer, and the output buffer is empty. *)
Lemma reading_loop_writes_all_output
        (fuel : nat) (s s' : loop_state api) :
  reading_loop api e fuel s = Some (LoopBreak s') ->
  ls_fout s' = ls_fout s ++ ls_out s ++ deflate_output api e fuel s
  /\ ls_out s' = [].
Proof.
  revert s; induction fuel as [|fuel IH]; intros s; [discriminate|].
  cbn [reading_loop deflate_output].
  destruct (refill api e s) as [s1|] eqn:Hre; [|discriminate].
  pose proof (refill_fout api e _ _ Hre) as Hf1.
  pose proof (refill_out _ _ Hre) as Ho1.
  unfold compress_step. cbn [snd].
  set (r := deflate api _ _ _ _).
  set (s2 := mkLoop _ _ _ _ _ _ _ _ _).
  assert (Hf2 : ls_fout s2 = ls_fout s) by exact Hf1.
  assert (Ho2 : ls_out s2 = ls_out s ++ takeZ (avail_out s1) (d_produced r))
    by (cbn [s2 ls_out]; rewrite Ho1; reflexivity).
  clearbody s2 r.
  destruct (drain api e (d_status r) s2) as [s3|] eqn:Hdr; [|discriminate].
  apply drain_written in Hdr. destruct Hdr as [Hsum Hend].
  rewrite Hf2, Ho2 in Hsum.
  destruct (Z.eqb_spec (d_status r) Z_STREAM_END) as [E|E].
  - intros H; injection H as <-. specialize (Hend E).
    rewrite Hend, app_nil_r in Hsum. split; [|exact Hend].
    exact Hsum.
  - destruct (negb (d_status r =? Z_OK)); [discriminate|].
    intros H. apply IH in H. destruct H as [H Hnil]. split; [|exact Hnil].
    rewrite H, (app_assoc (ls_fout s3)), Hsum, <- !app_assoc. reflexivity.
Qed.

Lemma lengthZ_dropZ_le (n : Z) (l : list byte) : lengthZ (dropZ n l) <= lengthZ l.
Proof.
  revert n; induction l as [|x l IH]; intros n; cbn [dropZ]; [lia|].
  destruct (0 <? n); [|lia].
  rewrite lengthZ_cons. specialize (IH (n - 1)). lia.
Qed.

(** X9.  In a successful run the destination is the header, then
    exactly the bytes [deflate] stored in the output buffer, each once
    and in the order they were produced, then eight footer bytes: no
    compressed byte is lost, repeated or left in the buffer, however the
    production was spread over the rounds of the loop. *)
Theorem compressGzipFile_payload_is_deflate_output
        (fuel : nat) (w w' : world) (f sdir ddir : string) (lvl : Z) :
  compressGzipFile p api e fuel w f sdir ddir lvl = Some (Z_OK, w') ->
  exists src c footer,
    fs w (calculateFilenameWithPath p sdir f) = Some src
    /\ deflateInit2 api lvl MZ_DEFLATED (- MZ_DEFAULT_WINDOW_BITS) 9
                    MZ_DEFAULT_STRATEGY = (Z_OK, c)
    /\ List.length footer = 8%nat
    /\ let hdr := gzip_header p (to_quint32 (Z.quot (f_lastModified src) 1000)) in
       dest_bytes p w' f ddir
       = Some (hdr
                 ++ deflate_output api e fuel
                      (mkLoop c [] [] (f_bytes src) hdr (lengthZ (f_bytes src))
                              (mz_crc32 0 None) 0 0)
                 ++ footer).
Proof.
  unfold compressGzipFile.
  destruct (fs w (calculateFilenameWithPath p sdir f)) as [src|];
    [|intros H; discriminate H].
  set (dest := calculateFilenameWithPath p ddir (getCompressedFilename f GZIP_ARCHIVE)).
  set (w0 := if open_write_ok e dest then write_file e w dest [] else w).
  destruct (negb _); [intros H; discriminate H|].
  rewrite writeGzipHeader_bytes. cbn [snd app].
  set (hdr := gzip_header p _).
  destruct (deflateInit2 api lvl _ _ _ _) as [init c].
  destruct (Z.eqb_spec init Z_OK) as [->|]; cbn [negb]; [|intros H; discriminate H].
  destruct (reading_loop api e fuel _) as [x|] eqn:Hloop; [|discriminate].
  destruct x as [s|s]; [|intros H; discriminate H].
  destruct (negb (deflateEnd api (ls_codec s) =? Z_OK)); [intros H; discriminate H|].
  rewrite writeGzipFooter_bytes. cbn [snd].
  intros H; apply some_pair_inv in H; destruct H as [_ <-].
  apply reading_loop_writes_all_output in Hloop. destruct Hloop as [Hout _].
  cbn [ls_fout ls_out app] in Hout.
  exists src, c, (le32 (to_quint32 (ls_crc s))
                    ++ le32 (to_quint32 (Z.land (lengthZ (f_bytes src))
                                                (LONG_MAX p - 1)))).
  split; [reflexivity|]. split; [reflexivity|]. split; [reflexivity|].
  cbv zeta. subst dest. rewrite dest_bytes_write_file, Hout, <- app_assoc.
  reflexivity.
Qed.

(** X10.  The loop keeps its buffers within their capacity and its
    counter honest: from a state in which [infile_remaining] is the
    number of unread source bytes and both buffers hold at most
    [BUF_SIZE] bytes, every way of leaving the loop ends in such a state;
    the counter never goes below 0 and never grows, so no read asks for
    more than the buffer holds or than the file has left. *)
Theorem reading_loop_keeps_bounds
        (fuel : nat) (s : loop_state api) (x : loop_exit api) :
  infile_remaining s = lengthZ (ls_fin s) ->
  lengthZ (ls_in s) <= BUF_SIZE ->
  lengthZ (ls_out s) <= BUF_SIZE ->
  reading_loop api e fuel s = Some x ->
  infile_remaining (exit_state x) = lengthZ (ls_fin (exit_state x))
  /\ 0 <= infile_remaining (exit_state x) <= infile_remaining s
  /\ lengthZ (ls_in (exit_state x)) <= BUF_SIZE
  /\ lengthZ (ls_out (exit_state x)) <= BUF_SIZE.
Proof.
  revert s x; induction fuel as [|fuel IH]; intros s x Hrem Hin Hout; [discriminate|].
  pose proof (lengthZ_nonneg (ls_fin s)) as Hnn.
  cbn [reading_loop].
  destruct (refill api e s) as [s1|] eqn:Hre.
  2:{ intros H; injection H as <-. cbn [exit_state]. lia. }
  assert (H1 : infile_remaining s1 = lengthZ (ls_fin s1)
               /\ 0 <= infile_remaining s1 <= infile_remaining s
               /\ lengthZ (ls_in s1) <= BUF_SIZE
               /\ lengthZ (ls_out s1) <= BUF_SIZE).
  { revert Hre. unfold refill. destruct (ls_in s) eqn:Ein.
    - destruct (read_ok e (ls_reads s)); [|discriminate].
      intros H; injection H as <-.
      cbn [infile_remaining ls_fin ls_in ls_out].
      assert (Hn : 0 <= Z.min BUF_SIZE (infile_remaining s) <= lengthZ (ls_fin s))
        by (unfold BUF_SIZE; lia).
      rewrite lengthZ_dropZ by exact Hn.
      rewrite lengthZ_takeZ by exact Hn.
      unfold BUF_SIZE in *. lia.
    - intros H; injection H as <-. rewrite Ein. lia. }
  destruct H1 as (Hrem1 & Hle1 & Hin1 & Hout1).
  unfold compress_step.
  set (r := deflate api _ _ _ _).
  set (s2 := mkLoop _ _ _ _ _ _ _ _ _).
  assert (H2 : infile_remaining s2 = lengthZ (ls_fin s2)
               /\ 0 <= infile_remaining s2 <= infile_remaining s
               /\ lengthZ (ls_in s2) <= BUF_SIZE
               /\ lengthZ (ls_out s2) <= BUF_SIZE).
  { cbn [s2 infile_remaining ls_fin ls_in ls_out].
    split; [exact Hrem1|]. split; [exact Hle1|]. split.
    - pose proof (lengthZ_dropZ_le (d_consumed r) (ls_in s1)). lia.
    - rewrite lengthZ_app. unfold avail_out.
      pose proof (lengthZ_takeZ_bound (BUF_SIZE - lengthZ (ls_out s1)) (d_produced r)
                                     ltac:(lia)). lia. }
  clearbody s2 r.
  destruct (drain api e (d_status r) s2) as [s3|] eqn:Hdr.
  2:{ intros H; injection H as <-. exact H2. }
  assert (H3 : infile_remaining s3 = lengthZ (ls_fin s3)
               /\ 0 <= infile_remaining s3 <= infile_remaining s
               /\ lengthZ (ls_in s3) <= BUF_SIZE
               /\ lengthZ (ls_out s3) <= BUF_SIZE).
  { revert Hdr. unfold drain.
    destruct ((d_status r =? Z_STREAM_END) || (avail_out s2 =? 0)).
    - destruct (write_ok e (ls_writes s2)); [|discriminate].
      intros H; injection H as <-.
      cbn [infile_remaining ls_fin ls_in ls_out].
      destruct H2 as (A & B & C & D). repeat split; try assumption; try lia.
      unfold BUF_SIZE. change (lengthZ []) with 0. lia.
    - intros H; injection H as <-. exact H2. }
  destruct (d_status r =? Z_STREAM_END).
  { intros H; injection H as <-. exact H3. }
  destruct (negb (d_status r =? Z_OK)).
  { intros H; injection H as <-. exact H3. }
  intros H. destruct H3 as (A & B & C & D).
  destruct (IH s3 x A C D H) as (A' & B' & C' & D').
  repeat split; try assumption; lia.
Qed.

(** X17.  When the loop has ended with [Z_STREAM_END] and [deflateEnd]
    then fails, the call returns [E_MINIZ_ERROR] although the whole
    compressed stream has been written: the destination is the header
    followed by everything [deflate] produced, and the footer is
    missing. *)
Theorem compressGzipFile_deflateEnd_failure
        (fuel : nat) (w : world) (f sdir ddir : string) (lvl : Z)
        (src : file) (c : codec api) (s : loop_state api) :
  fs w (calculateFilenameWithPath p sdir f) = Some src ->
  open_read_ok e (calculateFilenameWithPath p sdir f) = true ->
  open_write_ok e (calculateFilenameWithPath p ddir
                     (getCompressedFilename f GZIP_ARCHIVE)) = true ->
  deflateInit2 api lvl MZ_DEFLATED (- MZ_DEFAULT_WINDOW_BITS) 9
               MZ_DEFAULT_STRATEGY = (Z_OK, c) ->
  let hdr := gzip_header p (to_quint32 (Z.quot (f_lastModified src) 1000)) in
  let s0 := mkLoop c [] [] (f_bytes src) hdr (lengthZ (f_bytes src))
                   (mz_crc32 0 None) 0 0 in
  reading_loop api e fuel s0 = Some (LoopBreak s) ->
  deflateEnd api (ls_codec s) <> Z_OK ->
  exists w',
    compressGzipFile p api e fuel w f sdir ddir lvl = Some (E_MINIZ_ERROR, w')
    /\ dest_bytes p w' f ddir = Some (hdr ++ deflate_output api e fuel s0).
Proof.
  intros Hsrc Hr Hw Hinit hdr s0 Hloop Hend.
  unfold compressGzipFile. rewrite Hsrc, Hr, Hw. cbn [andb negb].
  rewrite writeGzipHeader_bytes. cbn [snd app]. rewrite Hinit.
  change (negb (Z_OK =? Z_OK)) with false. cbv iota.
  fold hdr. fold s0. rewrite Hloop.
  apply Z.eqb_neq in Hend. rewrite Hend. cbn [negb].
  eexists. split; [reflexivity|].
  rewrite dest_bytes_write_file.
  apply reading_loop_writes_all_output in Hloop. destruct Hloop as [Hout _].
  rewrite Hout. reflexivity.
Qed.

End GzipStream.

Lemma compressGzipFile_payload_is_deflate_output_witness :
  gzip_sample unix_lp64 [x61; x62; x63] 5000 6
  = Some (Z_OK, world_after (gzip_sample unix_lp64 [x61; x62; x63] 5000 6))
  /\ exists src c footer,
      fs (one_file "d/f" [x61; x62; x63] 5000)
         (calculateFilenameWithPath unix_lp64 "d" "f") = Some src
      /\ deflateInit2 RefCodec.api 6 MZ_DEFLATED (- MZ_DEFAULT_WINDOW_BITS) 9
                      MZ_DEFAULT_STRATEGY = (Z_OK, c)
      /\ List.length footer = 8%nat
      /\ let hdr := gzip_header unix_lp64
                      (to_quint32 (Z.quot (f_lastModified src) 1000)) in
         dest_bytes unix_lp64
           (world_after (gzip_sample unix_lp64 [x61; x62; x63] 5000 6)) "f" "o"
         = Some (hdr
                   ++ deflate_output RefCodec.api quiet_env 5
                        (mkLoop c [] [] (f_bytes src) hdr (lengthZ (f_bytes src))
                                (mz_crc32 0 None) 0 0)
                   ++ footer).
Proof.
  assert (Hrun : gzip_sample unix_lp64 [x61; x62; x63] 5000 6
                 = Some (Z_OK,
                         world_after (gzip_sample unix_lp64 [x61; x62; x63] 5000 6)))
    by (vm_compute; reflexivity).
  split; [exact Hrun|].
  exact (compressGzipFile_payload_is_deflate_output unix_lp64 RefCodec.api quiet_env
           5 _ _ "f" "d" "o" 6 Hrun).
Defined.

Lemma reading_loop_keeps_bounds_witness :
  infile_remaining sample_loop_start = lengthZ (ls_fin sample_loop_start)
  /\ reading_loop RefCodec.api quiet_env 5 sample_loop_start = Some sample_loop_exit
  /\ infile_remaining (exit_state sample_loop_exit)
     = lengthZ (ls_fin (exit_state sample_loop_exit))
  /\ 0 <= infile_remaining (exit_state sample_loop_exit)
     <= infile_remaining sample_loop_start
  /\ lengthZ (ls_in (exit_state sample_loop_exit)) <= BUF_SIZE
  /\ lengthZ (ls_out (exit_state sample_loop_exit)) <= BUF_SIZE.
Proof.
  assert (Hrun : reading_loop RefCodec.api quiet_env 5 sample_loop_start
                 = Some sample_loop_exit) by reflexivity.
  split; [reflexivity|]. split; [exact Hrun|].
  refine (reading_loop_keeps_bounds RefCodec.api quiet_env 5 sample_loop_start
            sample_loop_exit eq_refl _ _ Hrun); vm_compute; discriminate.
Defined.

Lemma compressGzipFile_deflateEnd_failure_witness :
  exists w',
    compressGzipFile unix_lp64 failing_end_codec quiet_env 5
                     (one_file "d/f" [x61; x62; x63] 5000) "f" "d" "o" 6
    = Some (E_MINIZ_ERROR, w')
    /\ dest_bytes unix_lp64 w' "f" "o"
       = Some (gzip_header unix_lp64 (to_quint32 (Z.quot 5000 1000))
                 ++ deflate_output failing_end_codec quiet_env 5
                      (@mkLoop failing_end_codec (RefCodec.mkState 6 [] false) [] []
                               [x61; x62; x63]
                               (gzip_header unix_lp64 (to_quint32 (Z.quot 5000 1000)))
                               (lengthZ [x61; x62; x63]) (mz_crc32 0 None) 0 0)).
Proof.
  refine (compressGzipFile_deflateEnd_failure unix_lp64 failing_end_codec quiet_env 5
            (one_file "d/f" [x61; x62; x63] 5000) "f" "d" "o" 6
            (mkFile [x61; x62; x63] 5000) (RefCodec.mkState 6 [] false)
            (exit_state
               (match reading_loop failing_end_codec quiet_env 5
                        (@mkLoop failing_end_codec (RefCodec.mkState 6 [] false) [] []
                                 [x61; x62; x63]
                                 (gzip_header unix_lp64 (to_quint32 (Z.quot 5000 1000)))
                                 (lengthZ [x61; x62; x63]) (mz_crc32 0 None) 0 0) with
                | Some x => x
                | None => LoopError (@mkLoop failing_end_codec
                                       (RefCodec.mkState 6 [] false)
                                       [] [] [] [] 0 0 0 0)
                end))
            _ _ _ _ _ _); try reflexivity.
  intros H. vm_compute in H. discriminate H.
Defined.

(** ** The gzip engine: round trip *)

Lemma land_mask_even_small (p : platform) (len : Z) :
  known_data_model p -> 0 <= len < 2 ^ 31 -> Z.even len = true ->
  Z.land len (LONG_MAX p - 1) = len.
Proof.
  intros Hp Hlen Heven.
  assert (Hmask : forall n, 1 <= n < 31 -> Z.testbit (LONG_MAX p - 1) n = true).
  { intros n Hn. replace n with (Z.succ (n - 1)) by lia.
    destruct Hp as [-> | ->].
    - change (2 ^ 31 - 1 - 1) with (2 * Z.ones 30).
      rewrite Z.double_bits_succ. apply Z.ones_spec_low. lia.
    - change (2 ^ 63 - 1 - 1) with (2 * Z.ones 62).
      rewrite Z.double_bits_succ. apply Z.ones_spec_low. lia. }
  apply Z.bits_inj'. intros n Hn. rewrite Z.land_spec.
  destruct (Z.eq_dec n 0) as [->|Hn0].
  - rewrite Z.bit0_odd, <- Z.negb_even, Heven. reflexivity.
  - destruct (Z.ltb_spec n 31).
    + rewrite Hmask by lia. apply andb_true_r.
    + rewrite <- (Z.mod_small len (2 ^ 31)) by lia.
      rewrite Z.mod_pow2_bits_high by lia. reflexivity.
Qed.

(** X11.  For a compressor that keeps zlib's contract, the gzip file of
    a source of even length below 2 GiB is accepted by a decoder that
    follows RFC 1952: magic, method and flags pass, and when the
    decoder's inflater returns the source bytes for the payload, the
    CRC-32 and ISIZE checks pass and the decoder returns the source. *)
Theorem gzip_roundtrip_even_length
        (p : platform) (api : zlib_api) (e : env) (fuel : nat)
        (w w' : world) (f sdir ddir : string) (lvl : Z)
        (src : file) (out : list byte)
        (inflate : list byte -> option (list byte)) :
  known_data_model p ->
  stream_end_only_on_finish api ->
  compressGzipFile p api e fuel w f sdir ddir lvl = Some (Z_OK, w') ->
  fs w (calculateFilenameWithPath p sdir f) = Some src ->
  dest_bytes p w' f ddir = Some out ->
  Z.even (lengthZ (f_bytes src)) = true ->
  lengthZ (f_bytes src) < 2 ^ 31 ->
  inflate (takeZ (lengthZ out - 18) (dropZ 10 out)) = Some (f_bytes src) ->
  gunzip inflate out = Some (f_bytes src).
Proof.
  intros Hp Hapi Hrun Hsrc Hout Heven Hsmall Hinf.
  destruct (compressGzipFile_ok_layout p api e _ _ _ _ _ _ _ Hrun)
    as (src' & payload & crc & Hsrc' & Hdest & Hcrc).
  assert (src' = src) by congruence. subst src'.
  specialize (Hcrc Hapi). subst crc.
  rewrite (land_mask_even_small p _ Hp) in Hdest
    by (pose proof (lengthZ_nonneg (f_bytes src)); auto; lia).
  set (hdr := gzip_header p _) in Hdest.
  set (c := crc32_of (f_bytes src)) in *.
  set (n := lengthZ (f_bytes src)) in *.
  assert (Eo : out = hdr ++ payload ++ le32 c ++ le32 n) by congruence.
  assert (Hlen : lengthZ out = 18 + lengthZ payload).
  { rewrite Eo, !lengthZ_app. change (lengthZ hdr) with 10.
    change (lengthZ (le32 c)) with 4. change (lengthZ (le32 n)) with 4. lia. }
  assert (Hmagic : takeZ 4 out = [x1f; x8b; x08; x00]).
  { rewrite Eo. reflexivity. }
  assert (Htrailer : dropZ (lengthZ out - 8) out = le32 c ++ le32 n).
  { replace (lengthZ out - 8) with (lengthZ (hdr ++ payload))
      by (rewrite Hlen, lengthZ_app; change (lengthZ hdr) with 10; lia).
    rewrite Eo, app_assoc. apply dropZ_app_exact. }
  unfold gunzip. cbv zeta.
  pose proof (lengthZ_nonneg payload) as Hp0.
  replace (lengthZ out <? 18) with false by (symmetry; apply Z.ltb_ge; lia).
  rewrite Hmagic.
  change ((Z_of_byte x1f =? 31) && (Z_of_byte x8b =? 139)
          && (Z_of_byte x08 =? 8) && (Z_of_byte x00 =? 0)) with true.
  cbv iota. rewrite Hinf, Htrailer.
  change 4 with (lengthZ (le32 c)).
  rewrite takeZ_app_exact, dropZ_app_exact, !le32_decode_le32.
  fold c. fold n.
  assert (Hc : c mod 2 ^ 32 = c) by (apply Z.mod_small, mz_crc32_range).
  rewrite Hc, !Z.eqb_refl. reflexivity.
Qed.

Lemma gzip_roundtrip_even_length_witness :
  known_data_model unix_lp64
  /\ Z.even (lengthZ [x61; x62]) = true
  /\ gzip_sample unix_lp64 [x61; x62] 5000 6
     = Some (Z_OK, world_after (gzip_sample unix_lp64 [x61; x62] 5000 6))
  /\ gunzip (fun _ => Some [x61; x62]) (gzip_sample_bytes unix_lp64 [x61; x62] 5000 6)
     = Some [x61; x62].
Proof.
  assert (Hrun : gzip_sample unix_lp64 [x61; x62] 5000 6
                 = Some (Z_OK, world_after (gzip_sample unix_lp64 [x61; x62] 5000 6)))
    by (vm_compute; reflexivity).
  assert (Hout : dest_bytes unix_lp64
                   (world_after (gzip_sample unix_lp64 [x61; x62] 5000 6)) "f" "o"
                 = Some (gzip_sample_bytes unix_lp64 [x61; x62] 5000 6))
    by (vm_compute; reflexivity).
  split; [right; reflexivity|]. split; [reflexivity|]. split; [exact Hrun|].
  exact (gzip_roundtrip_even_length
           unix_lp64 RefCodec.api quiet_env 5 _ _ "f" "d" "o" 6
           (mkFile [x61; x62] 5000) _ (fun _ => Some [x61; x62])
           (or_intror eq_refl) RefCodec_stream_end Hrun eq_refl Hout
           eq_refl eq_refl eq_refl).
Defined.

(** ** ZIP part: return codes and extraction *)

Section ZipEdges.

Variable p : platform.
Variable e : env.

(** X12.  The return code of [compressZipFile], case by case: it is
    [E_FILE_NOT_OPEN] exactly when the source does not exist, and then
    the archive library is not called at all (no archive is created); it
    is 0 exactly when the source exists and init, add, finalize and end
    all succeed; in every other case it is [EXIT_FAILURE].  The files of
    the model are never changed by the function itself. *)
Theorem compressZipFile_return_code
        (w : world) (f sdir ddir : string) (lvl : Z) :
  let name := getCompressedFilename f ZIP_ARCHIVE in
  let dest := calculateFilenameWithPath p ddir name in
  let src := calculateFilenameWithPath p sdir f in
  let r := fst (compressZipFile p e w f sdir ddir lvl) in
  (r = E_FILE_NOT_OPEN <-> QFile_exists w src = false)
  /\ (QFile_exists w src = false -> compressZipFile p e w f sdir ddir lvl
                                    = (E_FILE_NOT_OPEN, w))
  /\ (r = 0 <-> QFile_exists w src = true
                /\ writer_init_file_ok e dest = true
                /\ writer_add_file_ok e name src = true
                /\ writer_finalize_archive_ok e = true
                /\ writer_end_ok e = true)
  /\ (r = 0 \/ r = E_FILE_NOT_OPEN \/ r = EXIT_FAILURE)
  /\ fs (snd (compressZipFile p e w f sdir ddir lvl)) = fs w.
Proof.
  intros name dest src r.
  destruct (QFile_exists w src) eqn:Hex.
  - subst r. rewrite (compressZipFile_run p e w f sdir ddir lvl Hex).
    cbn [fst snd fs]. unfold writer_code. fold name. fold dest. fold src.
    destruct (writer_init_file_ok e dest), (writer_add_file_ok e name src),
      (writer_finalize_archive_ok e), (writer_end_ok e); cbn [andb];
      (split; [split; discriminate|]);
      (split; [discriminate|]);
      (split; [split; [try discriminate; auto
                      |intros (_ & A & B & C & D); try discriminate; reflexivity]|]);
      (split; [auto|reflexivity]).
  - assert (Hrun : compressZipFile p e w f sdir ddir lvl = (E_FILE_NOT_OPEN, w)).
    { unfold compressZipFile. fold name. fold src. rewrite Hex. reflexivity. }
    subst r. rewrite Hrun. cbn [fst snd].
    split; [split; reflexivity|]. split; [reflexivity|].
    split; [split; [discriminate|intros (A & _); discriminate A]|].
    split; [auto|reflexivity].
Qed.

Lemma uncompressZipFile_code (w : world) (filename destDir : string) :
  fst (uncompressZipFile p e w filename destDir)
  = if reader_init_file_ok e filename
       && negb (existsb extraction_fails (reader_entries e filename))
    then 0 else EXIT_FAILURE.
Proof.
  unfold uncompressZipFile.
  destruct (reader_init_file_ok e filename); cbn [negb andb]; [|reflexivity].
  destruct (reader_entries e filename) as [|en rest]; [reflexivity|].
  cbn [List.length Nat.eqb].
  match goal with
  | |- context [extract_entries p destDir 0 (en :: rest) ?w0] =>
      pose proof (extract_entries_code p destDir (en :: rest) 0 w0) as Hcode;
      destruct (extract_entries p destDir 0 (en :: rest) w0) as [[c|] w1]
  end; cbn [fst] in *;
    destruct (existsb extraction_fails (en :: rest)); cbn [negb];
    congruence.
Qed.

(** X13.  The return code of [uncompressZipFile]: 0 exactly when the
    archive could be opened and no file entry failed to extract (an
    archive without entries, or with directories and unreadable entries
    only, gives 0); otherwise [EXIT_FAILURE], which is positive: the
    function never returns the negative code its documentation mentions.
    An entry whose examination fails does not count as a failure. *)
Theorem uncompressZipFile_return_code (w : world) (filename destDir : string) :
  let r := fst (uncompressZipFile p e w filename destDir) in
  (r = 0 <-> reader_init_file_ok e filename = true
             /\ existsb extraction_fails (reader_entries e filename) = false)
  /\ (r = 0 \/ r = EXIT_FAILURE)
  /\ 0 <= r
  /\ (reader_init_file_ok e filename = true ->
      (forall en, In en (reader_entries e filename) ->
                  file_stat_ok en = false \/ is_directory en = true) ->
      r = 0).
Proof.
  cbv zeta. rewrite uncompressZipFile_code.
  destruct (reader_init_file_ok e filename); cbn [andb].
  - destruct (existsb extraction_fails (reader_entries e filename)) eqn:Hx;
      cbn [negb].
    + split; [split; [discriminate|intros [_ H]; discriminate H]|].
      split; [auto|]. split; [discriminate|].
      intros _ Hall. apply existsb_exists in Hx. destruct Hx as (en & Hin & Hf).
      unfold extraction_fails in Hf. apply andb_prop in Hf. destruct Hf as [Hf _].
      apply andb_prop in Hf. destruct Hf as [Hs Hd].
      destruct (Hall en Hin) as [H|H]; rewrite H in *; discriminate.
    + split; [split; auto|]. split; [auto|]. split; [discriminate|auto].
  - split; [split; [discriminate|intros [H _]; discriminate H]|].
    split; [auto|]. split; [discriminate|]. intros H; discriminate H.
Qed.

End ZipEdges.

Section ZipExtract.

Variable p : platform.
Variable e : env.

Lemma contains_append (c : ascii) (a b : string) :
  contains c (a ++ b) = contains c a || contains c b.
Proof.
  induction a as [|x a IH]; cbn [append contains]; [reflexivity|].
  rewrite IH. apply orb_assoc.
Qed.

Lemma string_app_assoc (a b c : string) : ((a ++ b) ++ c = a ++ b ++ c)%string.
Proof. induction a; cbn [append]; [reflexivity|]. rewrite IHa. reflexivity. Qed.

Lemma fileName_from_no_slash (s pre : string) :
  contains slash pre = false ->
  contains slash (fileName_from (pre ++ s) s) = false.
Proof.
  revert pre; induction s as [|c s IH]; intros pre Hpre; cbn [fileName_from].
  - rewrite contains_append, Hpre. reflexivity.
  - destruct (Ascii.eqb c slash) eqn:E.
    + apply (IH ""%string). reflexivity.
    + replace (pre ++ String c s)%string with ((pre ++ String c "") ++ s)%string
        by (rewrite string_app_assoc; reflexivity).
      apply IH. rewrite contains_append, Hpre. cbn [contains orb]. rewrite E.
      reflexivity.
Qed.

(** The name an extraction uses never has a directory part. *)
Lemma QFileInfo_fileName_no_slash (name : string) :
  contains slash (QFileInfo_fileName p name) = false.
Proof.
  unfold QFileInfo_fileName. apply (fileName_from_no_slash _ ""%string). reflexivity.
Qed.

Lemma reader_call_ok_shift (destDir : string) (i : nat) (en : zip_entry)
      (rest : list zip_entry) (c : zip_call) :
  reader_call_ok p destDir (S i) rest c ->
  reader_call_ok p destDir i (en :: rest) c.
Proof.
  destruct c; cbn [reader_call_ok List.length]; try lia; try contradiction.
  intros (en' & Hle & Hnth & Hrest). exists en'.
  split; [lia|]. split; [|exact Hrest].
  replace (i0 - i)%nat with (S (i0 - S i)) by lia. exact Hnth.
Qed.

(** Every call of the extraction loop is about one of its entries, and
    every extraction is of a file entry, to its flat path; when the loop
    runs to its end, each file entry was extracted. *)
Lemma extract_entries_calls (destDir : string) (entries : list zip_entry) :
  forall (i : nat) (w : world),
  exists calls,
    zip_log (snd (extract_entries p destDir i entries w)) = zip_log w ++ calls
    /\ Forall (reader_call_ok p destDir i entries) calls
    /\ (fst (extract_entries p destDir i entries w) = None ->
        List.length (filter is_extract_call calls)
        = List.length (filter is_file_entry entries)).
Proof.
  induction entries as [|en rest IH]; intros i w; cbn [extract_entries].
  - exists []. rewrite app_nil_r. repeat split; auto.
  - assert (Hstat : forall b, reader_call_ok p destDir i (en :: rest)
                                (mz_zip_reader_file_stat i b))
      by (intros b; cbn [reader_call_ok List.length]; lia).
    assert (Hdir : forall b, reader_call_ok p destDir i (en :: rest)
                               (mz_zip_reader_is_file_a_directory i b))
      by (intros b; cbn [reader_call_ok List.length]; lia).
    cbn [filter]. unfold is_file_entry at 1.
    destruct (file_stat_ok en) eqn:Es; cbn [negb andb].
    + destruct (is_directory en) eqn:Ed; cbn [negb].
      * match goal with
        | |- context [extract_entries p destDir (S i) rest ?w0] =>
            destruct (IH (S i) w0) as (calls & Hlog & Hok & Hcount)
        end.
        eexists. split; [rewrite Hlog; cbn [log zip_log];
                         rewrite <- !app_assoc; reflexivity|].
        cbn [app]. split.
        -- repeat (constructor; [auto|]).
           eapply Forall_impl; [|exact Hok]. apply reader_call_ok_shift.
        -- intros H. cbn [filter is_extract_call]. auto.
      * assert (Hext : reader_call_ok p destDir i (en :: rest)
                         (mz_zip_reader_extract_to_file i
                            ((if negb (QString.isEmpty destDir) then destDir else ".")
                               ++ "/" ++ QFileInfo_fileName p (m_filename en))
                            (extract_ok en))).
        { cbn [reader_call_ok]. exists en. split; [lia|].
          rewrite Nat.sub_diag. split; [reflexivity|].
          unfold is_file_entry. rewrite Es, Ed. auto. }
        destruct (extract_ok en) eqn:Ex; cbn [negb].
        -- match goal with
           | |- context [extract_entries p destDir (S i) rest ?w0] =>
               destruct (IH (S i) w0) as (calls & Hlog & Hok & Hcount)
           end.
           eexists. split; [rewrite Hlog; cbn [log zip_log];
                            rewrite <- !app_assoc; reflexivity|].
           cbn [app]. split.
           ++ repeat (constructor; [auto|]).
              eapply Forall_impl; [|exact Hok]. apply reader_call_ok_shift.
           ++ intros H. cbn [filter is_extract_call List.length]. auto.
        -- eexists. split; [cbn [snd log zip_log];
                            rewrite <- !app_assoc; reflexivity|].
           cbn [app fst]. split; [|discriminate].
           repeat (constructor; [auto|]). constructor.
    + match goal with
      | |- context [extract_entries p destDir (S i) rest ?w0] =>
          destruct (IH (S i) w0) as (calls & Hlog & Hok & Hcount)
      end.
      eexists. split; [rewrite Hlog; cbn [log zip_log];
                       rewrite <- !app_assoc; reflexivity|].
      cbn [app]. split.
      * constructor; [auto|].
        eapply Forall_impl; [|exact Hok]. apply reader_call_ok_shift.
      * intros H. cbn [filter is_extract_call]. auto.
Qed.

(** The loop over a list that starts with entries none of which fails
    is the loop over these entries followed by the loop over the rest. *)
Lemma extract_entries_app (destDir : string) (pre rest : list zip_entry) :
  forall (i : nat) (w : world),
    existsb extraction_fails pre = false ->
    extract_entries p destDir i (pre ++ rest) w
    = extract_entries p destDir (i + List.length pre) rest
        (snd (extract_entries p destDir i pre w)).
Proof.
  induction pre as [|en pre IH]; intros i w Hpre.
  - cbn [app extract_entries snd List.length]. rewrite Nat.add_0_r. reflexivity.
  - cbn [existsb] in Hpre. apply orb_false_elim in Hpre. destruct Hpre as [Hen Hpre].
    unfold extraction_fails in Hen.
    cbn [app extract_entries List.length].
    replace (i + S (List.length pre))%nat with (S i + List.length pre)%nat by lia.
    destruct (file_stat_ok en); cbn [negb andb] in *; [|apply IH, Hpre].
    destruct (is_directory en); cbn [negb andb] in *; [apply IH, Hpre|].
    destruct (extract_ok en); cbn [negb] in *; [apply IH, Hpre|discriminate Hen].
Qed.

(** X14.  What [uncompressZipFile] extracts.  Every extraction it asks
    the library for is of an entry of the archive that could be examined
    and is not a directory, under that entry's own index, with the
    library's answer for it, and goes to the extraction directory
    ([destDir], or "." when it is empty) followed by "/" and the entry's
    file name without any directory part: nothing is ever written below
    or outside that directory by way of the entry's stored path.  When
    the call returns 0, the number of extractions is the number of such
    entries; when the archive cannot be opened, nothing else is asked of
    the library. *)
Theorem uncompressZipFile_extractions (w : world) (filename destDir : string) :
  exists calls,
    zip_log (snd (uncompressZipFile p e w filename destDir)) = zip_log w ++ calls
    /\ (forall i dst res,
           In (mz_zip_reader_extract_to_file i dst res) calls ->
           exists en,
             nth_error (reader_entries e filename) i = Some en
             /\ file_stat_ok en = true /\ is_directory en = false
             /\ res = extract_ok en
             /\ dst = (extraction_dir destDir ++ "/"
                       ++ QFileInfo_fileName p (m_filename en))%string
             /\ contains slash (QFileInfo_fileName p (m_filename en)) = false)
    /\ (fst (uncompressZipFile p e w filename destDir) = 0 ->
        List.length (filter is_extract_call calls)
        = List.length (filter is_file_entry (reader_entries e filename)))
    /\ (reader_init_file_ok e filename = false ->
        calls = [mz_zip_reader_init_file filename false]).
Proof.
  assert (Hread : forall calls,
             Forall (reader_call_ok p destDir 0 (reader_entries e filename)) calls ->
             forall i dst res,
               In (mz_zip_reader_extract_to_file i dst res) calls ->
               exists en,
                 nth_error (reader_entries e filename) i = Some en
                 /\ file_stat_ok en = true /\ is_directory en = false
                 /\ res = extract_ok en
                 /\ dst = (extraction_dir destDir ++ "/"
                           ++ QFileInfo_fileName p (m_filename en))%string
                 /\ contains slash (QFileInfo_fileName p (m_filename en)) = false).
  { intros calls Hok i dst res Hin.
    rewrite Forall_forall in Hok. specialize (Hok _ Hin).
    cbn [reader_call_ok] in Hok. destruct Hok as (en & _ & Hnth & Hfile & Hres & Hdst).
    rewrite Nat.sub_0_r in Hnth.
    unfold is_file_entry in Hfile. apply andb_prop in Hfile.
    destruct Hfile as [Hs Hd]. apply negb_true_iff in Hd.
    exists en. repeat (split; [assumption|]). apply QFileInfo_fileName_no_slash. }
  unfold uncompressZipFile.
  destruct (reader_init_file_ok e filename) eqn:Hinit; cbn [negb].
  2:{ eexists. split; [reflexivity|]. split.
      - intros i dst res [H|[]]. discriminate H.
      - split; [intros H; discriminate H|reflexivity]. }
  destruct (reader_entries e filename) as [|en rest] eqn:Hen.
  { cbn [List.length Nat.eqb snd log zip_log].
    eexists. split; [rewrite <- !app_assoc; reflexivity|]. split.
    - intros i dst res [H|[H|[H|[]]]]; discriminate H.
    - split; [reflexivity|intros H; discriminate H]. }
  cbn [List.length Nat.eqb].
  match goal with
  | |- context [extract_entries p destDir 0 (en :: rest) ?w0] =>
      pose proof (extract_entries_code p destDir (en :: rest) 0 w0) as Hcode;
      destruct (extract_entries_calls destDir (en :: rest) 0 w0)
        as (calls & Hlog & Hok & Hcount);
      destruct (extract_entries p destDir 0 (en :: rest) w0) as [[c|] w1]
  end; cbn [fst snd] in *.
  - eexists. split; [rewrite Hlog; cbn [log zip_log];
                     rewrite <- !app_assoc; reflexivity|].
    cbn [app]. split.
    + intros i dst res [H|[H|H]]; try discriminate H. exact (Hread calls Hok i dst res H).
    + split; [|intros H; discriminate H].
      destruct (existsb extraction_fails (en :: rest)); [|discriminate Hcode].
      injection Hcode as ->. intros H; discriminate H.
  - eexists. split; [cbn [log zip_log]; rewrite Hlog; cbn [log zip_log];
                     rewrite <- !app_assoc; reflexivity|].
    cbn [app]. split.
    + intros i dst res [H|[H|H]]; try discriminate H.
      apply in_app_or in H. destruct H as [H|[H|[]]]; [|discriminate H].
      exact (Hread calls Hok i dst res H).
    + split; [|intros H; discriminate H].
      intros _. cbn [filter is_extract_call].
      rewrite filter_app, length_app. cbn [filter is_extract_call List.length].
      rewrite Nat.add_0_r. apply Hcount. reflexivity.
Qed.

(** X15.  [uncompressZipFile] stops at the first extraction that fails:
    with the archive opened and the entries [pre ++ en :: post], where no
    entry of [pre] fails and [en] does, it returns [EXIT_FAILURE] after
    the calls for [pre], the examination of [en] and its failed
    extraction; no entry of [post] is examined or extracted, and what
    was extracted before stays extracted. *)
Theorem uncompressZipFile_stops_at_first_failure
        (w : world) (filename destDir : string)
        (pre post : list zip_entry) (en : zip_entry) :
  reader_init_file_ok e filename = true ->
  reader_entries e filename = pre ++ en :: post ->
  existsb extraction_fails pre = false ->
  extraction_fails en = true ->
  let k := List.length pre in
  exists calls_pre,
    fst (uncompressZipFile p e w filename destDir) = EXIT_FAILURE
    /\ zip_log (snd (uncompressZipFile p e w filename destDir))
       = zip_log w
           ++ [mz_zip_reader_init_file filename true;
               mz_zip_reader_get_num_files (List.length (pre ++ en :: post))]
           ++ calls_pre
           ++ [mz_zip_reader_file_stat k true;
               mz_zip_reader_is_file_a_directory k false;
               mz_zip_reader_extract_to_file k
                 (extraction_dir destDir ++ "/"
                  ++ QFileInfo_fileName p (m_filename en))%string false]
    /\ Forall (reader_call_ok p destDir 0 pre) calls_pre
    /\ List.length (filter is_extract_call calls_pre)
       = List.length (filter is_file_entry pre).
Proof.
  intros Hinit Hentries Hpre Hen k.
  unfold extraction_fails in Hen.
  apply andb_prop in Hen. destruct Hen as [Hen Hx].
  apply andb_prop in Hen. destruct Hen as [Hs Hd].
  apply negb_true_iff in Hx, Hd.
  unfold uncompressZipFile. rewrite Hinit, Hentries. cbn [negb].
  assert (Hcount : Nat.eqb (List.length (pre ++ en :: post)) 0 = false).
  { rewrite length_app. cbn [List.length]. rewrite Nat.add_succ_r. reflexivity. }
  rewrite Hcount, extract_entries_app by exact Hpre.
  match goal with
  | |- context [extract_entries p destDir 0 pre ?w0] =>
      pose proof (extract_entries_code p destDir pre 0 w0) as Hcode;
      destruct (extract_entries_calls destDir pre 0 w0)
        as (calls & Hlog & Hok & Hcnt);
      destruct (extract_entries p destDir 0 pre w0) as [c w1]
  end.
  rewrite Hpre in Hcode. cbn [fst snd] in *. subst c. specialize (Hcnt eq_refl).
  cbn [extract_entries Nat.add]. fold k.
  rewrite Hs, Hd, Hx. cbn [negb fst snd].
  exists calls. split; [reflexivity|]. split; [|split; assumption].
  cbn [log zip_log]. rewrite Hlog. cbn [log zip_log].
  rewrite <- !app_assoc. reflexivity.
Qed.

End ZipExtract.

Lemma uncompressZipFile_stops_at_first_failure_witness :
  existsb extraction_fails [mkEntry true "docs/" true true] = false
  /\ extraction_fails (mkEntry true "docs/a.txt" false false) = true
  /\ exists calls_pre,
      fst (uncompressZipFile unix_lp64 (zip_env true true true true true sample_entries)
             (one_file "d/f" [x61] 0) "o/f.zip" "out") = EXIT_FAILURE
      /\ zip_log (snd (uncompressZipFile unix_lp64
                         (zip_env true true true true true sample_entries)
                         (one_file "d/f" [x61] 0) "o/f.zip" "out"))
         = zip_log (one_file "d/f" [x61] 0)
             ++ [mz_zip_reader_init_file "o/f.zip" true;
                 mz_zip_reader_get_num_files
                   (List.length ([mkEntry true "docs/" true true]
                                   ++ mkEntry true "docs/a.txt" false false
                                   :: [mkEntry true "b.txt" false true]))]
             ++ calls_pre
             ++ [mz_zip_reader_file_stat 1 true;
                 mz_zip_reader_is_file_a_directory 1 false;
                 mz_zip_reader_extract_to_file 1
                   (extraction_dir "out" ++ "/"
                    ++ QFileInfo_fileName unix_lp64 "docs/a.txt")%string false]
      /\ Forall (reader_call_ok unix_lp64 "out" 0 [mkEntry true "docs/" true true])
                calls_pre
      /\ List.length (filter is_extract_call calls_pre)
         = List.length (filter is_file_entry [mkEntry true "docs/" true true]).
Proof.
  split; [reflexivity|]. split; [reflexivity|].
  exact (uncompressZipFile_stops_at_first_failure unix_lp64
           (zip_env true true true true true sample_entries)
           (one_file "d/f" [x61] 0) "o/f.zip" "out"
           [mkEntry true "docs/" true true] [mkEntry true "b.txt" false true]
           (mkEntry true "docs/a.txt" false false)
           eq_refl eq_refl eq_refl eq_refl).
Defined.

(** The failing extraction of the sample goes to "out/a.txt". *)
Example uncompressZipFile_sample_log :
  uncompressZipFile unix_lp64 (zip_env true true true true true sample_entries)
                    (mkWorld (fun _ => None) []) "o/f.zip" "out"
  = (1, mkWorld (fun _ => None)
          [mz_zip_reader_init_file "o/f.zip" true;
           mz_zip_reader_get_num_files 3;
           mz_zip_reader_file_stat 0 true;
           mz_zip_reader_is_file_a_directory 0 true;
           mz_zip_reader_file_stat 1 true;
           mz_zip_reader_is_file_a_directory 1 false;
           mz_zip_reader_extract_to_file 1 "out/a.txt" false]).
Proof. reflexivity. Qed.

(** ** The entry point *)

Lemma compressedFileFormatEnum_eq_dec (a b : compressedFileFormatEnum) :
  {a = b} + {a <> b}.
Proof. decide equality. Defined.

(** X16.  The codes [fileCompress] can return: for GZIP_ARCHIVE 0,
    [E_FILE_NOT_OPEN] or [E_MINIZ_ERROR]; for every other algorithm 0,
    [E_FILE_NOT_OPEN] or [EXIT_FAILURE], and then the call always
    returns, whatever the fuel.  No algorithm ever yields
    [E_FILE_NOT_WRITEABLE], and a missing source gives
    [E_FILE_NOT_OPEN] with nothing touched, for every algorithm. *)
Theorem fileCompress_return_codes
        (p : platform) (api : zlib_api) (e : env) (fuel : nat) (w w' : world)
        (f sdir ddir : string) (algo : compressedFileFormatEnum) (lvl r : Z) :
  fileCompress p api e fuel w f sdir ddir algo lvl = Some (r, w') ->
  (algo = GZIP_ARCHIVE -> r = 0 \/ r = E_FILE_NOT_OPEN \/ r = E_MINIZ_ERROR)
  /\ (algo <> GZIP_ARCHIVE -> r = 0 \/ r = E_FILE_NOT_OPEN \/ r = EXIT_FAILURE)
  /\ r <> E_FILE_NOT_WRITEABLE
  /\ (QFile_exists w (calculateFilenameWithPath p sdir f) = false ->
      r = E_FILE_NOT_OPEN /\ w' = w)
  /\ (algo <> GZIP_ARCHIVE ->
      forall fuel', fileCompress p api e fuel' w f sdir ddir algo lvl = Some (r, w')).
Proof.
  intros Hrun.
  assert (Hzip : forall a, a <> GZIP_ARCHIVE ->
             fileCompress p api e fuel w f sdir ddir a lvl
             = Some (compressZipFile p e w f sdir ddir lvl)).
  { intros a Ha. destruct a; [reflexivity|contradiction|reflexivity]. }
  assert (Hzcode : forall c w1, compressZipFile p e w f sdir ddir lvl = (c, w1) ->
             (c = 0 \/ c = E_FILE_NOT_OPEN \/ c = EXIT_FAILURE)
             /\ (QFile_exists w (calculateFilenameWithPath p sdir f) = false ->
                 c = E_FILE_NOT_OPEN /\ w1 = w)).
  { intros c w1 H.
    destruct (QFile_exists w (calculateFilenameWithPath p sdir f)) eqn:Hex.
    - rewrite (compressZipFile_run p e w f sdir ddir lvl Hex) in H.
      injection H as <- _. split; [|discriminate].
      unfold writer_code. destruct (_ && _ && _ && _); auto.
    - unfold compressZipFile in H. rewrite Hex in H. cbn [negb] in H.
      injection H as <- <-. auto. }
  destruct (compressedFileFormatEnum_eq_dec algo GZIP_ARCHIVE) as [->|Hne].
  - cbn [fileCompress] in Hrun.
    destruct (compressGzipFile_cases p api e _ _ _ _ _ _ _ _ Hrun) as (Hr & _ & _).
    split; [auto|]. split; [contradiction|]. split.
    { destruct Hr as [-> | [-> | ->]]; discriminate. }
    split; [|contradiction].
    intros Hex. unfold QFile_exists in Hex. unfold compressGzipFile in Hrun.
    destruct (fs w (calculateFilenameWithPath p sdir f)); [discriminate Hex|].
    injection Hrun as <- <-. auto.
  - rewrite (Hzip algo Hne) in Hrun.
    destruct (compressZipFile p e w f sdir ddir lvl) as [c w1] eqn:Hz.
    injection Hrun as -> ->.
    destruct (Hzcode r w' eq_refl) as [Hc Hmiss].
    split; [contradiction|]. split; [auto|]. split.
    { destruct Hc as [-> | [-> | ->]]; discriminate. }
    split; [exact Hmiss|].
    intros _ fuel'. rewrite <- Hz.
    destruct algo; [reflexivity|contradiction|reflexivity].
Qed.

Lemma fileCompress_return_codes_witness :
  fileCompress unix_lp64 RefCodec.api quiet_env 0 (mkWorld (fun _ => None) [])
               "f" "d" "o" NO_COMPRESSION 6
  = Some (E_FILE_NOT_OPEN, mkWorld (fun _ => None) [])
  /\ (NO_COMPRESSION = GZIP_ARCHIVE ->
      E_FILE_NOT_OPEN = 0 \/ E_FILE_NOT_OPEN = E_FILE_NOT_OPEN
      \/ E_FILE_NOT_OPEN = E_MINIZ_ERROR)
  /\ (NO_COMPRESSION <> GZIP_ARCHIVE ->
      E_FILE_NOT_OPEN = 0 \/ E_FILE_NOT_OPEN = E_FILE_NOT_OPEN
      \/ E_FILE_NOT_OPEN = EXIT_FAILURE)
  /\ E_FILE_NOT_OPEN <> E_FILE_NOT_WRITEABLE
  /\ (QFile_exists (mkWorld (fun _ => None) [])
                   (calculateFilenameWithPath unix_lp64 "d" "f") = false ->
      E_FILE_NOT_OPEN = E_FILE_NOT_OPEN
      /\ mkWorld (fun _ => None) [] = mkWorld (fun _ => None) [])
  /\ (NO_COMPRESSION <> GZIP_ARCHIVE ->
      forall fuel',
        fileCompress unix_lp64 RefCodec.api quiet_env fuel'
                     (mkWorld (fun _ => None) []) "f" "d" "o" NO_COMPRESSION 6
        = Some (E_FILE_NOT_OPEN, mkWorld (fun _ => None) [])).
Proof.
  split; [reflexivity|].
  exact (fileCompress_return_codes unix_lp64 RefCodec.api quiet_env 0
           (mkWorld (fun _ => None) []) (mkWorld (fun _ => None) [])
           "f" "d" "o" NO_COMPRESSION 6 E_FILE_NOT_OPEN eq_refl).
Defined.
